(** * Target, channel enumeration and interaction selection

    A shallow embedding of the event-generation core:
    - [Target]  (Interaction/Target.cxx): the nuclear target with its struck
      nucleon sub-state and the owned struck-nucleon four-momentum;
    - [RSPPInteractionListGenerator] and [DfrcInteractionListGenerator]
      (EVGModules, Diffractive): channel enumeration;
    - [ToyInteractionSelector] (EVGCore): selection of one interaction.

    C++ [int]s are integers in [Z], a difference being wrapped to 32 bits;
    heap objects live in stores indexed by their address; a run that
    dereferences a null pointer, frees a dead cell or indexes outside an array
    ends in [Crash]. *)

From Stdlib Require Import ZArith String Lia Bool.
From stdpp Require Import base option list.

Set Default Proof Using "Type".

(** ** Outcomes of a run *)

Inductive Fault : Type :=
  | NullDereference
  | InvalidDelete
  | OutOfBounds (array : string) (index : nat).

Inductive Res (A : Type) : Type :=
  | Ok (a : A)
  | Crash (f : Fault).
Arguments Ok {A} a.
Arguments Crash {A} f.

Definition res_bind {A B} (r : Res A) (k : A -> Res B) : Res B :=
  match r with
  | Ok a => k a
  | Crash f => Crash f
  end.

(** Member functions run on a state [S] and may crash. *)
Definition St (S A : Type) : Type := S -> Res (A * S).

Definition ret {S A} (a : A) : St S A := fun s => Ok (a, s).
Definition bind {S A B} (m : St S A) (k : A -> St S B) : St S B :=
  fun s => res_bind (m s) (fun '(a, s') => k a s').
Definition crash {S A} (f : Fault) : St S A := fun _ => Crash f.
Definition lift {S A} (r : Res A) : St S A :=
  fun s => res_bind r (fun a => Ok (a, s)).

Notation "'let*' x ':=' c1 'in' c2" := (bind c1 (fun x => c2))
  (at level 10, x name, c1 at level 100, c2 at level 200).
Notation "c1 ;; c2" := (bind c1 (fun _ => c2))
  (at level 100, c2 at level 200, right associativity).

(** [for (int i = from; i < from + count; i++) acc = body(i, acc);] *)
Fixpoint for_loop {S A} (count from : nat) (body : nat -> A -> St S A) (acc : A) : St S A :=
  match count with
  | O => ret acc
  | Datatypes.S n =>
      let* acc' := body from acc in
      for_loop n (Datatypes.S from) body acc'
  end.

(** ** The message service (Messenger/Messenger.h): one entry per LOG line *)

Inductive Priority : Type := pDEBUG | pINFO | pWARN | pERROR.

Record LogEntry : Type := mkLog { stream : string; priority : Priority; text : string }.

(** ** Particle codes (PDG/PDGCodes.h, PDG/PDGUtils.h) *)

Module pdg.
Local Open Scope Z_scope.

(** Modelled from the spec: PDG/PDGCodes.h is not among the sources; the
    constants are the particle-numbering codes that the names denote. *)
Definition kPdgNuE : Z := 12.
Definition kPdgAntiNuE : Z := -12.
Definition kPdgNuMu : Z := 14.
Definition kPdgAntiNuMu : Z := -14.
Definition kPdgNuTau : Z := 16.
Definition kPdgAntiNuTau : Z := -16.
Definition kPdgProton : Z := 2212.
Definition kPdgNeutron : Z := 2112.
Definition kPdgPiPlus : Z := 211.
Definition kPdgPiMinus : Z := -211.
Definition kPdgPi0 : Z := 111.

(** Modelled from the spec: PDG/PDGUtils.h is not among the sources; each
    predicate tests membership in the species that its name denotes. *)
Definition IsProton (pdgc : Z) : bool := pdgc =? kPdgProton.
Definition IsNeutron (pdgc : Z) : bool := pdgc =? kPdgNeutron.
Definition IsNeutronOrProton (pdgc : Z) : bool := IsNeutron pdgc || IsProton pdgc.
Definition IsNeutrino (pdgc : Z) : bool :=
    (pdgc =? kPdgNuE) || (pdgc =? kPdgNuMu) || (pdgc =? kPdgNuTau).
Definition IsAntiNeutrino (pdgc : Z) : bool :=
    (pdgc =? kPdgAntiNuE) || (pdgc =? kPdgAntiNuMu) || (pdgc =? kPdgAntiNuTau).
End pdg.

(** ** External collaborators

    The particle-property table, the ion code of a nucleus and the numeric
    constants are not part of the sources: they are taken as parameters.
    [double] is the type of C++ doubles; no arithmetic is done on them here. *)

Record TParticlePDG (double : Type) : Type := mkParticle { Mass : double }.
Arguments mkParticle {double} _.
Arguments Mass {double} _.

Class Externals : Type := mkExternals {
  double : Type;
  (* the literal 0 converted to a double *)
  d0 : double;
  (* Conventions/Constants.h *)
  kNucleonMass : double;
  (* PDGLibrary::Instance()->Find(code); None is the null pointer *)
  Find : Z -> option (TParticlePDG double);
  (* pdg::IonPdgCode(A, Z) *)
  IonPdgCode : Z -> Z -> Z;
  (* pdg::IsIon(code) *)
  IsIon : Z -> bool;
  (* pdg::IsQuark(code), pdg::IsAntiQuark(code) *)
  IsQuark : Z -> bool;
  IsAntiQuark : Z -> bool
}.

(** ** Four-momenta and the store that holds them *)

Record TLorentzVector `{Externals} : Type :=
  mkP4 { Px : double; Py : double; Pz : double; E : double }.
Arguments mkP4 {_} _ _ _ _.
Arguments Px {_} _.
Arguments Py {_} _.
Arguments Pz {_} _.
Arguments E {_} _.

(** An address is an index in the store; a freed cell reads [None].
    [new] never hands out an address twice. *)
Abbreviation loc := nat (only parsing).

Abbreviation Store Obj := (list (option Obj)) (only parsing).

Section Store.
Context {Obj : Type}.

Definition deref (st : Store Obj) (l : loc) : option Obj :=
    match st !! l with
    | Some (Some v) => Some v
    | _ => None
    end.

Definition alloc (v : Obj) (st : Store Obj) : loc * Store Obj :=
    (length st, st ++ [Some v]).

Definition free (l : loc) (st : Store Obj) : Res (Store Obj) :=
    match deref st l with
    | Some _ => Ok (<[l := None]> st)
    | None => Crash InvalidDelete
    end.

Definition assign (l : loc) (v : Obj) (st : Store Obj) : Res (Store Obj) :=
    match deref st l with
    | Some _ => Ok (<[l := Some v]> st)
    | None => Crash NullDereference
    end.
End Store.

(** ** C arrays of a declared length: an access outside the bounds crashes *)

Definition array_decl {A} (n : nat) (zero : A) : list A := replicate n zero.

Definition array_get {A} (name : string) (a : list A) (i : nat) : Res A :=
  match a !! i with
  | Some x => Ok x
  | None => Crash (OutOfBounds name i)
  end.

Definition array_set {A} (name : string) (a : list A) (i : nat) (x : A) : Res (list A) :=
  if bool_decide (i < length a) then Ok (<[i := x]> a)
  else Crash (OutOfBounds name i).

(** 32-bit two's complement value of an [int] expression *)
Definition int_wrap (x : Z) : Z := ((x + 2 ^ 31) mod 2 ^ 32 - 2 ^ 31)%Z.

(** ** Interaction/Target.cxx *)

Module Target.
Local Open Scope Z_scope.

(** The data members of [Target]. [P] is the representation of the
    [TLorentzVector *] member: an address in the class itself ([Target]), the
    pointee where a target is held by value ([TargetVal]). *)
Record TargetOf (P : Type) : Type := mkTarget {
    fZ : Z;
    fA : Z;
    fTgtPDG : Z;
    fStruckNucPDG : Z;
    fStruckQuarkPDG : Z;
    fStruckSeaQuark : bool;
    fStruckNucP4 : P
  }.
Arguments mkTarget {P} _ _ _ _ _ _ _.
Arguments fZ {P} _.
Arguments fA {P} _.
Arguments fTgtPDG {P} _.
Arguments fStruckNucPDG {P} _.
Arguments fStruckQuarkPDG {P} _.
Arguments fStruckSeaQuark {P} _.
Arguments fStruckNucP4 {P} _.

Definition Target : Type := TargetOf (option loc).

Section Fields.
Context {P : Type}.
Implicit Type t : TargetOf P.

Definition with_fZ (z : Z) t : TargetOf P :=
      mkTarget z (fA t) (fTgtPDG t) (fStruckNucPDG t) (fStruckQuarkPDG t)
               (fStruckSeaQuark t) (fStruckNucP4 t).
Definition with_fA (a : Z) t : TargetOf P :=
      mkTarget (fZ t) a (fTgtPDG t) (fStruckNucPDG t) (fStruckQuarkPDG t)
               (fStruckSeaQuark t) (fStruckNucP4 t).
Definition with_fTgtPDG (c : Z) t : TargetOf P :=
      mkTarget (fZ t) (fA t) c (fStruckNucPDG t) (fStruckQuarkPDG t)
               (fStruckSeaQuark t) (fStruckNucP4 t).
Definition with_fStruckNucPDG (c : Z) t : TargetOf P :=
      mkTarget (fZ t) (fA t) (fTgtPDG t) c (fStruckQuarkPDG t)
               (fStruckSeaQuark t) (fStruckNucP4 t).
Definition with_fStruckQuarkPDG (c : Z) t : TargetOf P :=
      mkTarget (fZ t) (fA t) (fTgtPDG t) (fStruckNucPDG t) c
               (fStruckSeaQuark t) (fStruckNucP4 t).
Definition with_fStruckSeaQuark (b : bool) t : TargetOf P :=
      mkTarget (fZ t) (fA t) (fTgtPDG t) (fStruckNucPDG t) (fStruckQuarkPDG t)
               b (fStruckNucP4 t).
Definition with_fStruckNucP4 {Q : Type} (p : Q) t : TargetOf Q :=
      mkTarget (fZ t) (fA t) (fTgtPDG t) (fStruckNucPDG t) (fStruckQuarkPDG t)
               (fStruckSeaQuark t) p.

(** *** Accessors and classifiers (const member functions) *)

Definition Z_ t : Z := fZ t.
Definition N_ t : Z := int_wrap (fA t - fZ t).
Definition A_ t : Z := fA t.
Definition PDGCode t : Z := fTgtPDG t.

Definition IsFreeNucleon t : bool := (fA t =? 1) && ((fZ t =? 0) || (fZ t =? 1)).
Definition IsProton t : bool := (fA t =? 1) && (fZ t =? 1).
Definition IsNeutron t : bool := (fA t =? 1) && (fZ t =? 0).
Definition IsNucleus t : bool := fA t >? 1.

Definition StruckNucleonIsSet t : bool := pdg.IsNeutronOrProton (fStruckNucPDG t).
Definition StruckQuarkIsFromSea t : bool := fStruckSeaQuark t.
Definition StruckNucleonPDGCode t : Z := fStruckNucPDG t.
Definition StruckQuarkPDGCode t : Z := fStruckQuarkPDG t.
End Fields.

Section Methods.
Context `{Externals}.

Definition StruckQuarkIsSet {P} (t : TargetOf P) : bool :=
      IsQuark (fStruckQuarkPDG t) || IsAntiQuark (fStruckQuarkPDG t).

Definition IsValidNucleus {P} (t : TargetOf P) : bool :=
      if IsFreeNucleon t then true
      else
        let pdg_code := IonPdgCode (fA t) (fZ t) in
        match Find pdg_code with
        | Some _ => true
        | None => false
        end.

(** *** The state a member function runs in: the object itself, the
        store of four-momenta and the log. *)
Record Env : Type := mkEnv {
      this : Target;
      mem : Store TLorentzVector;
      log : list LogEntry
    }.

Definition M (A : Type) : Type := St Env A.

Definition get_this : M Target := fun e => Ok (this e, e).
Definition modify_this (f : Target -> Target) : M unit :=
      fun e => Ok (tt, mkEnv (f (this e)) (mem e) (log e)).
Definition LOG (s : string) (p : Priority) (msg : string) : M unit :=
      fun e => Ok (tt, mkEnv (this e) (mem e) (log e ++ [mkLog s p msg])).
Definition new (v : TLorentzVector) : M loc :=
      fun e => let '(l, st) := alloc v (mem e) in Ok (l, mkEnv (this e) st (log e)).
Definition delete (l : loc) : M unit :=
      fun e => res_bind (free l (mem e)) (fun st => Ok (tt, mkEnv (this e) st (log e))).
Definition load (l : loc) : M TLorentzVector :=
      fun e => match deref (mem e) l with
               | Some v => Ok (v, e)
               | None => Crash NullDereference
               end.

(** *** Private helpers *)

Definition Init : M unit :=
  modify_this (with_fZ 0) ;;
  modify_this (with_fA 0) ;;
  modify_this (with_fTgtPDG 0) ;;
  modify_this (with_fStruckNucPDG 0) ;;
  modify_this (with_fStruckQuarkPDG 0) ;;
  modify_this (with_fStruckSeaQuark false) ;;
  let* p := new (mkP4 d0 d0 d0 kNucleonMass) in
  modify_this (with_fStruckNucP4 (Some p)).

(** resets the struck nucleon pdg-code if it found not to be a valid one *)
Definition ForceStruckNucleonValidity : M bool :=
  let* t := get_this in
  let valid := pdg.IsProton (fStruckNucPDG t) || pdg.IsNeutron (fStruckNucPDG t) in
  (if negb valid then
     LOG "Target" pDEBUG "Reseting to struck nucleon to 'Rootino'" ;;
     modify_this (with_fStruckNucPDG 0)
   else ret tt) ;;
  ret valid.

Definition ForceNucleusValidity : M unit :=
  let* t := get_this in
  if negb (IsValidNucleus t) then
    LOG "Target" pWARN "Invalid target -- Reseting to Z = 0, A = 0" ;;
    modify_this (with_fZ 0) ;;
    modify_this (with_fA 0)
  else ret tt.

(** *** Mutators *)

Definition SetStruckNucleonP4 (p4 : TLorentzVector) : M unit :=
  let* t := get_this in
  (match fStruckNucP4 t with
   | Some old => delete old
   | None => ret tt
   end) ;;
  let* p := new p4 in
  modify_this (with_fStruckNucP4 (Some p)).

Definition SetStruckNucleonPDGCode (nucl_pdgc : Z) : M unit :=
  modify_this (with_fStruckNucPDG nucl_pdgc) ;;
  let* is_valid := ForceStruckNucleonValidity in
  if is_valid then
    match Find nucl_pdgc with
    | Some particle =>
        let M := Mass particle in
        SetStruckNucleonP4 (mkP4 d0 d0 d0 M)
    | None => crash NullDereference
    end
  else ret tt.

Definition SetStruckQuarkPDGCode (pdgc : Z) : M unit :=
  if IsQuark pdgc || IsAntiQuark pdgc then modify_this (with_fStruckQuarkPDG pdgc)
  else ret tt.

Definition SetStruckSeaQuark (tf : bool) : M unit :=
  modify_this (with_fStruckSeaQuark tf).

Definition SetZA (Z A : Z) : M unit :=
  modify_this (with_fZ Z) ;;
  modify_this (with_fA A) ;;
  ForceNucleusValidity ;;
  let* t := get_this in
  if IsFreeNucleon t then
    if IsProton t then SetStruckNucleonPDGCode pdg.kPdgProton
    else SetStruckNucleonPDGCode pdg.kPdgNeutron
  else ret tt.

(** [tgt] is the state of the object copied from: an object other than
    [this], so that its members are the same throughout the call. *)
Definition Copy (tgt : Target) : M unit :=
  Init ;;
  modify_this (with_fTgtPDG (fTgtPDG tgt)) ;;
  let* t := get_this in
  if IsIon (fTgtPDG t) then
    modify_this (with_fZ (fZ tgt)) ;;
    modify_this (with_fA (fA tgt)) ;;
    modify_this (with_fStruckNucPDG (fStruckNucPDG tgt)) ;;
    modify_this (with_fStruckQuarkPDG (fStruckQuarkPDG tgt)) ;;
    modify_this (with_fStruckSeaQuark (fStruckSeaQuark tgt)) ;;
    (match fStruckNucP4 tgt with
     | Some theirs =>
         let* v := load theirs in
         let* p := new v in
         modify_this (with_fStruckNucP4 (Some p))
     | None => ret tt
     end) ;;
    ForceNucleusValidity ;;
    let* _ := ForceStruckNucleonValidity in
    ret tt
  else ret tt.

(** [TLorentzVector * StruckNucleonP4() const] *)
Definition StruckNucleonP4 : M (option loc) :=
  let* t := get_this in
  match fStruckNucP4 t with
  | None =>
      LOG "Target" pWARN "Returning NULL struck nucleon 4-momentum" ;;
      ret None
  | Some p => ret (Some p)
  end.

(** *** Constructors and destructor. A constructor runs on the raw memory
    of the new object: whatever [this] holds before is overwritten. *)

Definition Target_ : M unit := Init.

Definition Target_ZA (Z A : Z) : M unit :=
  Init ;;
  modify_this (with_fTgtPDG (IonPdgCode A Z)) ;;
  SetZA Z A.

Definition Target_ZA_nucleon (Z A struck_nucleon_pdgc : Z) : M unit :=
  Init ;;
  modify_this (with_fZ Z) ;;
  modify_this (with_fA A) ;;
  modify_this (with_fTgtPDG (IonPdgCode A Z)) ;;
  ForceNucleusValidity ;;
  SetStruckNucleonPDGCode struck_nucleon_pdgc.

Definition Target_copy (tgt : Target) : M unit := Copy tgt.

Definition Target_dtor : M unit :=
  let* t := get_this in
  match fStruckNucP4 t with
  | Some p => delete p
  | None => ret tt
  end.

(** *** Further const member functions *)

Definition IsParticle {P} (t : TargetOf P) : bool :=
  match Find (fTgtPDG t) with
  | Some _ => (fA t =? 0) && (fZ t =? 0)
  | None => false
  end.

(** [%] on [int] is the remainder of the truncated division *)
Definition IsEvenEven {P} (t : TargetOf P) : bool :=
  if IsNucleus t then
    let N := N_ t in
    let Z := Z_ t in
    if (Z.rem N 2 =? 0) && (Z.rem Z 2 =? 0) then true else false
  else false.

Definition IsOddOdd {P} (t : TargetOf P) : bool :=
  if IsNucleus t then
    let N := N_ t in
    let Z := Z_ t in
    if (Z.rem N 2 =? 1) && (Z.rem Z 2 =? 1) then true else false
  else false.

Definition IsEvenOdd {P} (t : TargetOf P) : bool :=
  if IsNucleus t then
    if negb (IsEvenEven t) && negb (IsOddOdd t) then true else false
  else false.

(** [double Mass() const]: the mass of the nucleus in the table, or 0 *)
Definition Mass_ {P} (t : TargetOf P) : double :=
  match Find (fTgtPDG t) with
  | Some p => Mass p
  | None => d0
  end.

Definition StruckNucleonMass : M double :=
  let* t := get_this in
  if fStruckNucPDG t =? 0 then
    LOG "Target" pWARN "Returning struck nucleon mass = 0" ;;
    ret d0
  else
    match Find (fStruckNucPDG t) with
    | Some particle => ret (Mass particle)
    | None => crash NullDereference
    end.

(** *** Observation of a target: the members with the four-momentum pointer
    followed into the store. *)

Definition TargetVal : Type := TargetOf (option TLorentzVector).

Definition resolve (st : Store TLorentzVector) (t : Target) : TargetVal :=
  with_fStruckNucP4 (match fStruckNucP4 t with
                     | Some p => deref st p
                     | None => None
                     end) t.

Definition observe (e : Env) : TargetVal := resolve (mem e) (this e).

(** what a run leaves to be observed *)
Definition outcome {A} (r : Res (A * Env)) : Res TargetVal :=
  res_bind r (fun '(_, e) => Ok (observe e)).

(** A target held by value owns a store of its own: the members and, when
    there is a four-momentum, its only cell. *)
Definition place (v : TargetVal) : Env :=
  match fStruckNucP4 v with
  | Some p4 => mkEnv (with_fStruckNucP4 (Some 0%nat) v) [Some p4] []
  | None => mkEnv (with_fStruckNucP4 None v) [] []
  end.

Definition on_value {A} (m : M A) (v : TargetVal) : Res (A * TargetVal) :=
  res_bind (m (place v)) (fun '(a, e) => Ok (a, observe e)).

(** Modelled from the spec: the isotope table is not among the sources.
    The target with Z = A = 0 is the invalid, empty one: the table has no
    nucleus under the code of (0, 0). *)
Definition no_empty_nucleus : Prop := Find (IonPdgCode 0 0) = None.

(** *** The class invariant: what every constructor establishes and every
    mutator keeps. *)

Definition nucleus_forced {P} (t : TargetOf P) : bool :=
  IsValidNucleus t || ((fZ t =? 0) && (fA t =? 0)).

Definition nucleon_forced {P} (t : TargetOf P) : bool :=
  (fStruckNucPDG t =? 0) || pdg.IsProton (fStruckNucPDG t) || pdg.IsNeutron (fStruckNucPDG t).

Definition owns_p4 (st : Store TLorentzVector) (t : Target) : bool :=
  match fStruckNucP4 t with
  | Some p => bool_decide (is_Some (deref st p))
  | None => false
  end.

Definition invariant (st : Store TLorentzVector) (t : Target) : bool :=
  nucleus_forced t && nucleon_forced t && owns_p4 st t.


Definition establishes {A} (m : M A) : Prop :=
  forall e a e', m e = Ok (a, e') -> invariant (mem e') (this e') = true.

Definition keeps {A} (m : M A) : Prop :=
  forall e a e', invariant (mem e) (this e) = true ->
                 m e = Ok (a, e') -> invariant (mem e') (this e') = true.

(** *** Ownership of the four-momentum across a life of the object *)

(** the object holds the one live cell at or above [length before]; the
    cells of [before] are as they were *)
Definition sole_owner (before : Store TLorentzVector) (e : Env) : Prop :=
  exists p,
    fStruckNucP4 (this e) = Some p /\
    (length before <= p)%nat /\
    is_Some (deref (mem e) p) /\
    (forall l, (length before <= l)%nat -> l <> p -> deref (mem e) l = None) /\
    (forall l, (l < length before)%nat -> mem e !! l = before !! l).

(** what is left of a run that ends in the destructor: every cell at or above
    [length before] is freed, the cells of [before] are as they were; the
    only fault is the null pointer *)
Definition released (before : Store TLorentzVector) (r : Res (unit * Env)) : Prop :=
  match r with
  | Ok (_, e') =>
      (forall l, (length before <= l)%nat -> deref (mem e') l = None) /\
      (forall l, (l < length before)%nat -> mem e' !! l = before !! l)
  | Crash f => f = NullDereference
  end.
End Methods.
End Target.

(** ** Interaction/SppChannel.h: the single-pion-production channels *)

Module SppChannel.
Local Open Scope Z_scope.

Inductive SppChannel_t : Type :=
  | kSppNull
  | kSpp_vp_cc_10100 | kSpp_vn_cc_10010 | kSpp_vn_cc_01100
  | kSpp_vp_nc_10010 | kSpp_vp_nc_01100 | kSpp_vn_nc_01010 | kSpp_vn_nc_10001
  | kSpp_vbn_cc_01001 | kSpp_vbp_cc_01010 | kSpp_vbp_cc_10001
  | kSpp_vbp_nc_10010 | kSpp_vbp_nc_01100 | kSpp_vbn_nc_01010 | kSpp_vbn_nc_10001.

(** Modelled from the spec: Interaction/SppChannel.h is not among the
    sources. A channel maps to (initial-state nucleon, final-state nucleon,
    final-state meson); the name of a channel gives the probe and the struck
    nucleon, then the final-state counts of p, n, pi+, pi0, pi-, as in the
    reaction list at the head of CreateInteractionList. [kSppNull] has no
    particle: code 0. *)
Definition InitStateNucleon (channel : SppChannel_t) : Z :=
  match channel with
  | kSppNull => 0
  | kSpp_vp_cc_10100 | kSpp_vp_nc_10010 | kSpp_vp_nc_01100
  | kSpp_vbp_cc_01010 | kSpp_vbp_cc_10001 | kSpp_vbp_nc_10010 | kSpp_vbp_nc_01100 =>
      pdg.kPdgProton
  | kSpp_vn_cc_10010 | kSpp_vn_cc_01100 | kSpp_vn_nc_01010 | kSpp_vn_nc_10001
  | kSpp_vbn_cc_01001 | kSpp_vbn_nc_01010 | kSpp_vbn_nc_10001 =>
      pdg.kPdgNeutron
  end.

(** Modelled from the spec: the final-state nucleon of a channel (see
    [InitStateNucleon]). *)
Definition FinStateNucleon (channel : SppChannel_t) : Z :=
  match channel with
  | kSppNull => 0
  | kSpp_vp_cc_10100 | kSpp_vn_cc_10010 | kSpp_vp_nc_10010 | kSpp_vn_nc_10001
  | kSpp_vbp_cc_10001 | kSpp_vbp_nc_10010 | kSpp_vbn_nc_10001 =>
      pdg.kPdgProton
  | kSpp_vn_cc_01100 | kSpp_vp_nc_01100 | kSpp_vn_nc_01010
  | kSpp_vbn_cc_01001 | kSpp_vbp_cc_01010 | kSpp_vbp_nc_01100 | kSpp_vbn_nc_01010 =>
      pdg.kPdgNeutron
  end.

(** Modelled from the spec: the final-state pion of a channel (see
    [InitStateNucleon]). *)
Definition FinStatePion (channel : SppChannel_t) : Z :=
  match channel with
  | kSppNull => 0
  | kSpp_vp_cc_10100 | kSpp_vn_cc_01100 | kSpp_vp_nc_01100 | kSpp_vbp_nc_01100 =>
      pdg.kPdgPiPlus
  | kSpp_vn_cc_10010 | kSpp_vp_nc_10010 | kSpp_vn_nc_01010
  | kSpp_vbp_cc_01010 | kSpp_vbp_nc_10010 | kSpp_vbn_nc_01010 =>
      pdg.kPdgPi0
  | kSpp_vn_nc_10001 | kSpp_vbn_cc_01001 | kSpp_vbp_cc_10001 | kSpp_vbn_nc_10001 =>
      pdg.kPdgPiMinus
  end.
End SppChannel.

(** ** Interaction/Interaction.h and its parts *)

Module Interaction.
Local Open Scope Z_scope.

Inductive ScatteringType_t : Type := kScNull | kScResonant.
Inductive InteractionType_t : Type := kIntNull | kIntWeakCC | kIntWeakNC.

Record ProcessInfo : Type := mkProcessInfo {
  fScatteringType : ScatteringType_t;
  fInteractionType : InteractionType_t
}.

(** multiplicities of the final state *)
Record XclsTag : Type := mkXclsTag {
  fNProtons : Z;
  fNNeutrons : Z;
  fNPiPlus : Z;
  fNPi0 : Z;
  fNPiMinus : Z
}.

Definition XclsTag_ : XclsTag := mkXclsTag 0 0 0 0 0.

Definition SetNNucleons (np nn : Z) (tag : XclsTag) : XclsTag :=
  mkXclsTag np nn (fNPiPlus tag) (fNPi0 tag) (fNPiMinus tag).

Definition SetNPions (npi_plus npi_0 npi_minus : Z) (tag : XclsTag) : XclsTag :=
  mkXclsTag (fNProtons tag) (fNNeutrons tag) npi_plus npi_0 npi_minus.

Section WithExternals.
Context `{Externals}.

(** Modelled from the spec: Interaction/InitialState.h is not among the
    sources. An initial state is the probe identity with its four-momentum
    and the target, which it owns: the target is held by value. *)
Record InitialState : Type := mkInitialState {
  fProbePdg : Z;
  fProbeP4 : TLorentzVector;
  fTgt : Target.TargetVal
}.

Definition ProbePdg (init_state : InitialState) : Z := fProbePdg init_state.
Definition TgtPtr (init_state : InitialState) : Target.TargetVal := fTgt init_state.

Definition SetProbeP4 (p4 : TLorentzVector) (init_state : InitialState) : InitialState :=
  mkInitialState (fProbePdg init_state) p4 (fTgt init_state).

(** Modelled from the spec: Interaction/Interaction.h is not among the
    sources. An interaction is an initial state, the process information and
    the exclusive tag, all owned. *)
Record Interaction : Type := mkInteraction {
  fInitialState : InitialState;
  fProcInfo : ProcessInfo;
  fExclusiveTag : XclsTag
}.

(** Modelled from the spec: [Interaction(init_state, proc_info)] copies the
    initial state and sets the process information; the tag is empty. *)
Definition Interaction_ (init_state : InitialState) (proc_info : ProcessInfo) : Interaction :=
  mkInteraction init_state proc_info XclsTag_.

(** Modelled from the spec: the copy constructor is a deep copy: the new
    object holds copies of the parts of the old one. *)
Definition Interaction_copy (interaction : Interaction) : Interaction :=
  mkInteraction (fInitialState interaction) (fProcInfo interaction)
                (fExclusiveTag interaction).

Definition with_fInitialState (init_state : InitialState) (i : Interaction) : Interaction :=
  mkInteraction init_state (fProcInfo i) (fExclusiveTag i).

Definition SetExclTag (tag : XclsTag) (i : Interaction) : Interaction :=
  mkInteraction (fInitialState i) (fProcInfo i) tag.

(** [vector<Interaction *>] *)
Definition InteractionList : Type := list loc.
End WithExternals.
End Interaction.

(** ** The random number service (Numerical/RandomGen.h) *)

Class RandomGen : Type := mkRandomGen {
  RndState : Type;
  (** [RndISel().Integer(imax)]: the draw and the state after it *)
  Integer : RndState -> nat -> nat * RndState
}.

(** ** The state the event-generation modules run in: the store of
    interactions, the random number service and the log. *)

Module EVG.
Import Interaction.

Section WithServices.
Context `{Externals} `{RandomGen}.

Record World : Type := mkWorld {
  objs : Store Interaction;
  rnd : RndState;
  msgs : list LogEntry
}.

Definition LOG (s : string) (p : Priority) (msg : string) : St World unit :=
  fun w => Ok (tt, mkWorld (objs w) (rnd w) (msgs w ++ [mkLog s p msg])).

(** [new Interaction(...)] *)
Definition new (v : Interaction) : St World loc :=
  fun w => let '(l, st) := alloc v (objs w) in Ok (l, mkWorld st (rnd w) (msgs w)).

(** [*interaction] *)
Definition load (l : loc) : St World Interaction :=
  fun w => match deref (objs w) l with
           | Some v => Ok (v, w)
           | None => Crash NullDereference
           end.

(** [*interaction = v] *)
Definition store (l : loc) (v : Interaction) : St World unit :=
  fun w => res_bind (assign l v (objs w)) (fun st => Ok (tt, mkWorld st (rnd w) (msgs w))).

Definition draw (imax : nat) : St World nat :=
  fun w => let '(i, r) := Integer (rnd w) imax in Ok (i, mkWorld (objs w) r (msgs w)).
End WithServices.
End EVG.

(** ** EVGModules/RSPPInteractionListGenerator.cxx *)

Module RSPPInteractionListGenerator.
Import SppChannel Interaction EVG.
Local Open Scope Z_scope.

(** the data members, read by [LoadConfigData] from is-CC and is-NC *)
Record Config : Type := mkConfig { fIsCC : bool; fIsNC : bool }.

Definition n_nucc_channels : nat := 3.
Definition n_nunc_channels : nat := 4.

Section WithServices.
Context `{Externals} `{RandomGen}.

(** [target->SetHitNucPdg(struck_nucleon)] on the target of the interaction
    at [interaction]: [Target::SetStruckNucleonPDGCode] under the name this
    generator calls it by. *)
Definition SetHitNucPdg (interaction : loc) (struck_nucleon : Z) : St World unit :=
  let* i := load interaction in
  let init_state := fInitialState i in
  let* r := lift (Target.on_value (Target.SetStruckNucleonPDGCode struck_nucleon)
                                  (TgtPtr init_state)) in
  let init_state' := mkInitialState (fProbePdg init_state) (fProbeP4 init_state) (snd r) in
  store interaction (with_fInitialState init_state' i).

Definition AddFinalStateInfo (interaction : loc) (sppchan : SppChannel_t) : St World unit :=
  let nucpdg := FinStateNucleon sppchan in
  let pipdg := FinStatePion sppchan in
  let* nucleons :=
    if nucpdg =? pdg.kPdgProton then ret (1, 0)
    else if nucpdg =? pdg.kPdgNeutron then ret (0, 1)
    else
      LOG "InteractionGenerator" pERROR
          "Final state nucleon not a proton or a neutron!" ;;
      ret (0, 0) in
  let* pions :=
    if pipdg =? pdg.kPdgPiPlus then ret (1, 0, 0)
    else if pipdg =? pdg.kPdgPi0 then ret (0, 1, 0)
    else if pipdg =? pdg.kPdgPiMinus then ret (0, 0, 1)
    else
      LOG "InteractionGenerator" pERROR "Final state pion not a pi+/pi-/pi0!" ;;
      ret (0, 0, 0) in
  let '(nproton, nneutron) := nucleons in
  let '(npiplus, npi0, npiminus) := pions in
  let exclusive_tag := XclsTag_ in
  let exclusive_tag := SetNNucleons nproton nneutron exclusive_tag in
  let exclusive_tag := SetNPions npiplus npi0 npiminus exclusive_tag in
  let* i := load interaction in
  store interaction (SetExclTag exclusive_tag i).

(** The assignments of the channels to the two local arrays; [None] when
    the probe is neither a neutrino nor an anti-neutrino. *)
Definition fill_channels (nupdg : Z) (nucc_channels nunc_channels : list SppChannel_t)
  : Res (option (list SppChannel_t * list SppChannel_t)) :=
  if pdg.IsNeutrino nupdg then
    res_bind (array_set "nucc_channels" nucc_channels 0 kSpp_vp_cc_10100) (fun nucc_channels =>
    res_bind (array_set "nucc_channels" nucc_channels 1 kSpp_vn_cc_10010) (fun nucc_channels =>
    res_bind (array_set "nucc_channels" nucc_channels 2 kSpp_vn_cc_01100) (fun nucc_channels =>
    res_bind (array_set "nunc_channels" nunc_channels 0 kSpp_vp_nc_10010) (fun nunc_channels =>
    res_bind (array_set "nunc_channels" nunc_channels 1 kSpp_vp_nc_01100) (fun nunc_channels =>
    res_bind (array_set "nunc_channels" nunc_channels 2 kSpp_vn_nc_01010) (fun nunc_channels =>
    res_bind (array_set "nunc_channels" nunc_channels 3 kSpp_vn_nc_10001) (fun nunc_channels =>
    Ok (Some (nucc_channels, nunc_channels)))))))))
  else if pdg.IsAntiNeutrino nupdg then
    res_bind (array_set "nucc_channels" nucc_channels 0 kSpp_vbn_cc_01001) (fun nucc_channels =>
    res_bind (array_set "nucc_channels" nucc_channels 1 kSpp_vbp_cc_01010) (fun nucc_channels =>
    res_bind (array_set "nucc_channels" nucc_channels 2 kSpp_vbp_cc_10001) (fun nucc_channels =>
    res_bind (array_set "nunc_channels" nunc_channels 0 kSpp_vbp_nc_10010) (fun nunc_channels =>
    res_bind (array_set "nunc_channels" nunc_channels 1 kSpp_vbp_nc_01100) (fun nunc_channels =>
    res_bind (array_set "nunc_channels" nunc_channels 2 kSpp_vbn_nc_01010) (fun nunc_channels =>
    res_bind (array_set "nunc_channels" nunc_channels 3 kSpp_vbn_nc_10001) (fun nunc_channels =>
    Ok (Some (nucc_channels, nunc_channels)))))))))
  else Ok None.

(** The body of the loop over the channels of one current. *)
Definition add_channel (array : string) (channels : list SppChannel_t)
    (current : InteractionType_t) (init_state : InitialState) (hasP hasN : bool)
    (i : nat) (intlist : InteractionList) : St World InteractionList :=
  let* channel := lift (array_get array channels i) in
  let struck_nucleon := InitStateNucleon channel in
  if ((struck_nucleon =? pdg.kPdgProton) && hasP) ||
     ((struck_nucleon =? pdg.kPdgNeutron) && hasN) then
    let proc_info := mkProcessInfo kScResonant current in
    let* interaction := new (Interaction_ init_state proc_info) in
    SetHitNucPdg interaction struck_nucleon ;;
    AddFinalStateInfo interaction channel ;;
    ret (intlist ++ [interaction])
  else ret intlist.

(** [CreateInteractionList] with the declared length of [nunc_channels]
    left open. The result is the pointer returned: [None] is null. *)
Definition CreateInteractionList_sized (nunc_declared : nat)
    (cfg : Config) (init_state : InitialState) : St World (option InteractionList) :=
  LOG "InteractionList" pINFO "InitialState = " ;;
  let nucc_channels := array_decl n_nucc_channels kSppNull in
  let nunc_channels := array_decl nunc_declared kSppNull in
  let nupdg := ProbePdg init_state in
  let* filled := lift (fill_channels nupdg nucc_channels nunc_channels) in
  match filled with
  | None =>
      LOG "InteractionList" pWARN
          "Can not handle probe! Returning NULL InteractionList for init-state: " ;;
      ret None
  | Some (nucc_channels, nunc_channels) =>
      let inp_target := TgtPtr init_state in
      let hasP := Target.Z_ inp_target >? 0 in
      let hasN := Target.N_ inp_target >? 0 in
      let intlist : InteractionList := [] in
      let* intlist :=
        if fIsCC cfg then
          for_loop n_nucc_channels 0
                   (add_channel "nucc_channels" nucc_channels kIntWeakCC init_state hasP hasN)
                   intlist
        else if fIsNC cfg then
          for_loop n_nunc_channels 0
                   (add_channel "nunc_channels" nunc_channels kIntWeakNC init_state hasP hasN)
                   intlist
        else ret intlist in
      if (length intlist =? 0)%nat then
        LOG "InteractionList" pERROR "Returning NULL InteractionList for init-state: " ;;
        ret None
      else ret (Some intlist)
  end.

(** The source declares both arrays with [n_nucc_channels]:
    [SppChannel_t nunc_channels[n_nucc_channels] = {kSppNull};] *)
Definition CreateInteractionList : Config -> InitialState -> St World (option InteractionList) :=
  CreateInteractionList_sized n_nucc_channels.

(** *** What the specification expects of the enumeration

    The definitions below follow the words of the specification, not the
    code: they are what the result of [CreateInteractionList] is compared
    with. *)

(** the fixed channel table for a probe sign and a current *)
Definition spec_channel_table (nupdg : Z) (current : InteractionType_t) : list SppChannel_t :=
  if pdg.IsNeutrino nupdg then
    match current with
    | kIntWeakCC => [kSpp_vp_cc_10100; kSpp_vn_cc_10010; kSpp_vn_cc_01100]
    | kIntWeakNC => [kSpp_vp_nc_10010; kSpp_vp_nc_01100; kSpp_vn_nc_01010; kSpp_vn_nc_10001]
    | kIntNull => []
    end
  else if pdg.IsAntiNeutrino nupdg then
    match current with
    | kIntWeakCC => [kSpp_vbn_cc_01001; kSpp_vbp_cc_01010; kSpp_vbp_cc_10001]
    | kIntWeakNC => [kSpp_vbp_nc_10010; kSpp_vbp_nc_01100; kSpp_vbn_nc_01010; kSpp_vbn_nc_10001]
    | kIntNull => []
    end
  else [].

(** the configured current: charged, neutral, or none *)
Definition spec_current (cfg : Config) : InteractionType_t :=
  if fIsCC cfg then kIntWeakCC else if fIsNC cfg then kIntWeakNC else kIntNull.

(** a channel is admitted when the target has a nucleon of the type that
    the channel starts from: Z > 0 for a proton, N > 0 for a neutron *)
Definition spec_admitted (tgt : Target.TargetVal) (channel : SppChannel_t) : bool :=
  ((InitStateNucleon channel =? pdg.kPdgProton) && (Target.Z_ tgt >? 0)) ||
  ((InitStateNucleon channel =? pdg.kPdgNeutron) && (Target.N_ tgt >? 0)).

Definition spec_channels (cfg : Config) (init_state : InitialState) : list SppChannel_t :=
  List.filter (spec_admitted (TgtPtr init_state))
              (spec_channel_table (ProbePdg init_state) (spec_current cfg)).

(** one-hot counts of the final-state nucleon and pion *)
Definition spec_tag (channel : SppChannel_t) : XclsTag :=
  mkXclsTag (if FinStateNucleon channel =? pdg.kPdgProton then 1 else 0)
            (if FinStateNucleon channel =? pdg.kPdgNeutron then 1 else 0)
            (if FinStatePion channel =? pdg.kPdgPiPlus then 1 else 0)
            (if FinStatePion channel =? pdg.kPdgPi0 then 1 else 0)
            (if FinStatePion channel =? pdg.kPdgPiMinus then 1 else 0).

(** the interaction of a channel: the initial state with the struck nucleon
    of the channel, at rest and on the mass shell, resonant scattering with the
    configured current, and the tag of the channel *)
Definition spec_interaction (cfg : Config) (init_state : InitialState)
    (channel : SppChannel_t) : Interaction :=
  let nucleon := InitStateNucleon channel in
  let M := match Find nucleon with
           | Some particle => Mass particle
           | None => d0
           end in
  let tgt := Target.with_fStruckNucP4 (Some (mkP4 d0 d0 d0 M))
               (Target.with_fStruckNucPDG nucleon (TgtPtr init_state)) in
  mkInteraction (mkInitialState (fProbePdg init_state) (fProbeP4 init_state) tgt)
                (mkProcessInfo kScResonant (spec_current cfg))
                (spec_tag channel).

(** the struck nucleon and the final state of an interaction *)
Definition signature (i : Interaction) : Z * XclsTag :=
  (Target.StruckNucleonPDGCode (TgtPtr (fInitialState i)), fExclusiveTag i).

Definition signatures (w : World) : list (option (Z * XclsTag)) :=
  map (option_map signature) (objs w).
End WithServices.
End RSPPInteractionListGenerator.

(** ** Diffractive/DfrcInteractionListGenerator.cxx *)

Module DfrcInteractionListGenerator.
Import Interaction EVG.

Section WithServices.
Context `{Externals} `{RandomGen}.

Definition CreateInteractionList (init_state : InitialState) : St World (option InteractionList) :=
  LOG "IntLst" pINFO "InitialState = " ;;
  let intlist : InteractionList := [] in
  ret (Some intlist).
End WithServices.
End DfrcInteractionListGenerator.

(** ** EVGCore/ToyInteractionSelector.cxx *)

Module ToyInteractionSelector.
Import Interaction EVG.

Section WithServices.
Context `{Externals} `{RandomGen}.

(** Modelled from the spec: EVGCore/InteractionGeneratorMap.h is not among
    the sources. The selector is handed the interaction list; the size of the
    handle is the number of elements of the list that it carries. *)
Record InteractionGeneratorMap : Type := mkInteractionGeneratorMap {
  fInteractionList : InteractionList
}.

Definition size (igmap : InteractionGeneratorMap) : nat := length (fInteractionList igmap).
Definition GetInteractionList (igmap : InteractionGeneratorMap) : InteractionList :=
  fInteractionList igmap.

(** Modelled from the spec: EVGCore/EventRecord.h is not among the sources.
    An event record holds the attached interaction summary. *)
Record EventRecord : Type := mkEventRecord { fInteraction : option loc }.

Definition EventRecord_ : EventRecord := mkEventRecord None.
Definition AttachSummary (interaction : loc) (evrec : EventRecord) : EventRecord :=
  mkEventRecord (Some interaction).

(** [igmap] is the pointer passed in and the result the pointer returned:
    [None] is null. Sizes and indices are natural numbers. *)
Definition SelectInteraction (igmap : option InteractionGeneratorMap) (p4 : TLorentzVector)
  : St World (option EventRecord) :=
  match igmap with
  | None =>
      LOG "InteractionSelector" pERROR
          "*** NULL InteractionGeneratorMap! Can't select interaction" ;;
      ret None
  | Some igmap =>
      if (size igmap <=? 0)%nat then
        LOG "InteractionSelector" pERROR
            "*** Empty InteractionGeneratorMap! Can't select interaction" ;;
        ret None
      else
        let ilst := GetInteractionList igmap in
        let nint := length ilst in
        let* iint := draw nint in
        let* interaction := lift (array_get "ilst" ilst iint) in
        let* original := load interaction in
        let* selected_interaction := new (Interaction_copy original) in
        let* copy := load selected_interaction in
        store selected_interaction
              (with_fInitialState (SetProbeP4 p4 (fInitialState copy)) copy) ;;
        LOG "InteractionSelector" pINFO "Interaction to generate: " ;;
        let evrec := EventRecord_ in
        let evrec := AttachSummary selected_interaction evrec in
        ret (Some evrec)
  end.

(** Modelled from the spec: the random number service is not among the
    sources; it draws an integer uniformly over [0, imax). *)
Definition draws_in_range : Prop :=
  forall (s : RndState) (imax : nat), (0 < imax)%nat -> (fst (Integer s imax) < imax)%nat.

(** the list owns its elements: each is the address of a live interaction *)
Definition owned (st : Store Interaction) (ilst : InteractionList) : Prop :=
  forall l, l ∈ ilst -> is_Some (deref st l).
End WithServices.
End ToyInteractionSelector.

(** ** A small world to run the definitions in: masses in keV, a particle
    table with the two nucleons and a few nuclei, ion codes 10LZZZAAAI. *)

Module Sample.
Local Open Scope Z_scope.

Definition ion_code (a z : Z) : Z := z * 10000 + a * 10 + 1000000000.

Definition table : list (Z * Z) :=
  [ (2212, 938272); (2112, 939565); (11, 511);
    (ion_code 2 1, 1875613); (ion_code 12 6, 11174862);
    (ion_code 16 8, 14895079); (ion_code 56 26, 52089773) ].

Fixpoint lookup_code (code : Z) (entries : list (Z * Z)) : option (TParticlePDG Z) :=
  match entries with
  | [] => None
  | (c, mass) :: entries' =>
      if c =? code then Some (mkParticle mass) else lookup_code code entries'
  end.

Definition find (code : Z) : option (TParticlePDG Z) := lookup_code code table.

Definition externals : Externals :=
  mkExternals Z 0 938919 find ion_code
    (fun c => (1000000000 <? c) && (1999999999 >? c))
    (fun c => (c >=? 1) && (c <=? 6))
    (fun c => (c >=? -6) && (c <=? -1)).

(** a counter as generator state: the draw is the counter modulo [imax] *)
Definition random : RandomGen :=
  mkRandomGen nat (fun s imax => (s mod imax, S s))%nat.

Definition raw : Target.Target := Target.mkTarget 7 7 7 7 7 true None.

Definition blank : @Target.Env externals := Target.mkEnv raw [] [].

Import Interaction EVG RSPPInteractionListGenerator ToyInteractionSelector SppChannel.

Definition beam : @TLorentzVector externals := @mkP4 externals 0 0 1000000 1000000.

(** the value of the object that [Target(Z, A)] constructs *)
Definition target_of (z a : Z) : @Target.TargetVal externals :=
  match Target.Target_ZA z a blank with
  | Ok (_, e) => Target.observe e
  | Crash _ => Target.resolve [] raw
  end.

Definition init_state (nupdg z a : Z) : @InitialState externals :=
  mkInitialState nupdg beam (target_of z a).

Definition numu_on_deuteron : @InitialState externals := init_state pdg.kPdgNuMu 1 2.
Definition numu_on_proton : @InitialState externals := init_state pdg.kPdgNuMu 1 1.
Definition numubar_on_neutron : @InitialState externals := init_state pdg.kPdgAntiNuMu 0 1.

Definition cfgCC : Config := mkConfig true false.
Definition cfgNC : Config := mkConfig false true.

Definition world (st : Store (@Interaction externals)) (seed : nat) : @World externals random :=
  @mkWorld externals random st seed [].

Definition two_interactions : Store (@Interaction externals) :=
  [ Some (spec_interaction cfgCC numu_on_deuteron kSpp_vp_cc_10100);
    Some (spec_interaction cfgCC numu_on_deuteron kSpp_vn_cc_10010) ].

Definition igmap : @InteractionGeneratorMap := mkInteractionGeneratorMap [0; 1]%nat.

(** carbon-12, as [Target(6, 12)] leaves it, and the memory that holds its
    four-momentum *)
Definition carbon : Target.Target :=
  Target.mkTarget 6 12 (ion_code 12 6) 0 0 false (Some 0%nat).

Definition carbon_env : @Target.Env externals :=
  Target.mkEnv raw [Some (@mkP4 externals 0 0 0 938919)] [].

(** a service that breaks the contract: the draw is [imax] itself *)
Definition stuck_random : RandomGen :=
  mkRandomGen nat (fun s imax => (imax, s)).

(** oxygen-16 with a struck proton and a struck sea anti-quark, as the
    constructor from (Z, A, nucleon) and the setters leave it *)
Definition oxygen : Target.Target :=
  Target.mkTarget 8 16 (ion_code 16 8) 2212 (-2) true (Some 0%nat).

Definition oxygen_env : @Target.Env externals :=
  Target.mkEnv oxygen [Some (@mkP4 externals 0 0 0 938272)] [].
End Sample.

(** * Properties *)

(** ** The store *)

Section StoreFacts.
Context {Obj : Type}.
Implicit Types (st : Store Obj) (l : loc) (v : Obj).

Lemma deref_Some_lt st l v : deref st l = Some v -> (l < length st)%nat.
Proof.
  unfold deref. destruct (st !! l) as [cell|] eqn:Hl; [|discriminate].
  intros _. eapply lookup_lt_Some; eauto.
Qed.

Lemma deref_fresh_None st : deref st (length st) = None.
Proof.
  unfold deref. rewrite (lookup_ge_None_2 st (length st)); [reflexivity | lia].
Qed.

Lemma deref_alloc_fresh st v : deref (st ++ [Some v]) (length st) = Some v.
Proof.
  unfold deref. rewrite lookup_app_r by lia.
  replace (length st - length st)%nat with 0%nat by lia. reflexivity.
Qed.

Lemma deref_alloc_old st cell l :
  (l < length st)%nat -> deref (st ++ [cell]) l = deref st l.
Proof. intros Hl. unfold deref. rewrite lookup_app_l by assumption. reflexivity. Qed.

Lemma deref_alloc_live st cell l v :
  deref st l = Some v -> deref (st ++ [cell]) l = Some v.
Proof.
  intros Hv. rewrite deref_alloc_old; [assumption|]. eapply deref_Some_lt; eauto.
Qed.

Lemma deref_update_ne st l l' cell :
  l <> l' -> deref (<[l := cell]> st) l' = deref st l'.
Proof. intros Hne. unfold deref. rewrite list_lookup_insert_ne by assumption. reflexivity. Qed.

Lemma deref_update_eq st l v :
  (l < length st)%nat -> deref (<[l := Some v]> st) l = Some v.
Proof. intros Hl. unfold deref. rewrite list_lookup_insert_eq by assumption. reflexivity. Qed.

Lemma deref_freed st l : deref (<[l := None]> st) l = None.
Proof.
  unfold deref. destruct (decide (l < length st)%nat) as [Hl|Hl].
  - rewrite list_lookup_insert_eq by assumption. reflexivity.
  - rewrite list_insert_ge by lia. rewrite (lookup_ge_None_2 st l); [reflexivity | lia].
Qed.
End StoreFacts.

(** ** Target *)

Section TargetFacts.
Context `{Externals}.
Import Target.
Local Open Scope Z_scope.

Lemma IsFreeNucleon_true (P : Type) (t : TargetOf P) :
  IsFreeNucleon t = true <-> fA t = 1 /\ (fZ t = 0 \/ fZ t = 1).
Proof. unfold IsFreeNucleon. rewrite andb_true_iff, orb_true_iff, !Z.eqb_eq. tauto. Qed.

Lemma IsFreeNucleon_false (P : Type) (t : TargetOf P) :
  IsFreeNucleon t = false <-> ~ (fA t = 1 /\ (fZ t = 0 \/ fZ t = 1)).
Proof. rewrite <- IsFreeNucleon_true. destruct (IsFreeNucleon t); split; congruence. Qed.

Lemma IsValidNucleus_false (P : Type) (t : TargetOf P) :
  IsValidNucleus t = false <->
  ~ (fA t = 1 /\ (fZ t = 0 \/ fZ t = 1)) /\ Find (IonPdgCode (fA t) (fZ t)) = None.
Proof.
  unfold IsValidNucleus. rewrite <- IsFreeNucleon_false.
  destruct (IsFreeNucleon t); [split; [discriminate | intros [? _]; discriminate]|].
  destruct (Find _); split; try tauto; try discriminate. intros [_ ?]; discriminate.
Qed.

(** C6. When (Z, A) is neither a free nucleon nor a nucleus of the particle
    table, [SetZA(Z, A)] completes, leaves Z = A = 0 with [IsValidNucleus()]
    false, touches no four-momentum and adds one warning to the log. The
    table is taken to hold no nucleus with Z = A = 0: the empty target is the
    invalid one. *)
Theorem SetZA_invalid_resets (e : Env) (Z A : Z) :
  no_empty_nucleus ->
  ~ (A = 1 /\ (Z = 0 \/ Z = 1)) ->
  Find (IonPdgCode A Z) = None ->
  exists e',
    SetZA Z A e = Ok (tt, e') /\
    Z_ (this e') = 0 /\ A_ (this e') = 0 /\
    IsValidNucleus (this e') = false /\
    mem e' = mem e /\
    log e' = log e ++ [mkLog "Target" pWARN "Invalid target -- Reseting to Z = 0, A = 0"].
Proof.
  intros Hempty Hfree Hfind.
  assert (Hinvalid : IsValidNucleus (with_fA A (with_fZ Z (this e))) = false).
  { apply IsValidNucleus_false. cbn. tauto. }
  unfold SetZA, ForceNucleusValidity, bind, modify_this, get_this, res_bind. cbn.
  rewrite Hinvalid. cbn.
  eexists. split; [reflexivity|].
  repeat split. apply IsValidNucleus_false. cbn. split; [lia | assumption].
Qed.

Lemma owns_p4_true (st : Store TLorentzVector) (t : Target) :
  owns_p4 st t = true <-> exists p v, fStruckNucP4 t = Some p /\ deref st p = Some v.
Proof.
  unfold owns_p4. destruct (fStruckNucP4 t) as [p|].
  - rewrite bool_decide_eq_true. split.
    + intros [v Hv]. eauto.
    + intros (p' & v & Hp & Hv). injection Hp as <-. eauto.
  - split; [discriminate | intros (p & v & Hp & _); discriminate].
Qed.

Lemma Init_spec (e : Env) :
  Init e = Ok (tt, mkEnv (mkTarget 0 0 0 0 0 false (Some (length (mem e))))
                         (mem e ++ [Some (mkP4 d0 d0 d0 kNucleonMass)]) (log e)).
Proof. reflexivity. Qed.

Lemma SetStruckNucleonP4_owned (e : Env) (p4 : TLorentzVector) (old : loc) (v : TLorentzVector) :
  fStruckNucP4 (this e) = Some old ->
  deref (mem e) old = Some v ->
  SetStruckNucleonP4 p4 e =
    Ok (tt, mkEnv (with_fStruckNucP4 (Some (length (mem e))) (this e))
                  (<[old := None]> (mem e) ++ [Some p4]) (log e)).
Proof.
  intros Hp Hv.
  unfold SetStruckNucleonP4, bind, get_this, delete, new, modify_this, free, alloc, res_bind.
  cbn. rewrite Hp. cbn. rewrite Hv. cbn. rewrite length_insert. reflexivity.
Qed.

Lemma SetStruckNucleonP4_null (e : Env) (p4 : TLorentzVector) :
  fStruckNucP4 (this e) = None ->
  SetStruckNucleonP4 p4 e =
    Ok (tt, mkEnv (with_fStruckNucP4 (Some (length (mem e))) (this e))
                  (mem e ++ [Some p4]) (log e)).
Proof.
  intros Hp.
  unfold SetStruckNucleonP4, bind, get_this, delete, new, modify_this, free, alloc, res_bind.
  cbn. rewrite Hp. reflexivity.
Qed.

Lemma SetStruckNucleonP4_dangling (e : Env) (p4 : TLorentzVector) (old : loc) :
  fStruckNucP4 (this e) = Some old ->
  deref (mem e) old = None ->
  SetStruckNucleonP4 p4 e = Crash InvalidDelete.
Proof.
  intros Hp Hv.
  unfold SetStruckNucleonP4, bind, get_this, delete, new, modify_this, free, alloc, res_bind.
  cbn. rewrite Hp. cbn. rewrite Hv. reflexivity.
Qed.

Lemma nucleon_code_valid (c : Z) :
  pdg.IsNeutronOrProton c = true -> pdg.IsProton c || pdg.IsNeutron c = true.
Proof. unfold pdg.IsNeutronOrProton. rewrite orb_comm. trivial. Qed.

Lemma SetStruckNucleonPDGCode_valid (e : Env) (c : Z) :
  pdg.IsNeutronOrProton c = true ->
  SetStruckNucleonPDGCode c e =
    match Find c with
    | Some particle =>
        SetStruckNucleonP4 (mkP4 d0 d0 d0 (Mass particle))
          (mkEnv (with_fStruckNucPDG c (this e)) (mem e) (log e))
    | None => Crash NullDereference
    end.
Proof.
  intros Hc. apply nucleon_code_valid in Hc.
  unfold SetStruckNucleonPDGCode, ForceStruckNucleonValidity, bind, modify_this, get_this,
    res_bind, ret, crash. cbn. rewrite Hc. cbn. destruct (Find c); reflexivity.
Qed.

Lemma SetStruckNucleonPDGCode_live (c : Z) (e0 : Env) particle old v :
  pdg.IsNeutronOrProton c = true ->
  Find c = Some particle ->
  fStruckNucP4 (this e0) = Some old -> deref (mem e0) old = Some v ->
  exists e1,
    SetStruckNucleonPDGCode c e0 = Ok (tt, e1) /\
    this e1 = with_fStruckNucP4 (Some (length (mem e0))) (with_fStruckNucPDG c (this e0)) /\
    mem e1 = <[old := None]> (mem e0) ++ [Some (mkP4 d0 d0 d0 (Mass particle))] /\
    log e1 = log e0 /\
    owns_p4 (mem e1) (this e1) = true /\
    observe e1 = with_fStruckNucP4 (Some (mkP4 d0 d0 d0 (Mass particle)))
                                   (with_fStruckNucPDG c (this e0)).
Proof.
  intros Hc Hf Hp Hv. rewrite (SetStruckNucleonPDGCode_valid _ _ Hc), Hf.
  erewrite SetStruckNucleonP4_owned by eauto. eexists. split; [reflexivity|].
  do 3 (split; [reflexivity|]). split.
  - apply owns_p4_true. cbn. do 2 eexists. split; [reflexivity|].
    rewrite <- (length_insert (mem e0) old None). apply deref_alloc_fresh.
  - unfold observe, resolve. cbn.
    rewrite <- (length_insert (mem e0) old None) at 1. rewrite deref_alloc_fresh. reflexivity.
Qed.

(** C10. For a proton or neutron code, setting the struck nucleon twice
    leaves what setting it once leaves: the same members and the same
    four-momentum value (and the same fault, where the first call faults).
    When the table holds the nucleon and the target owns its four-momentum,
    both runs complete with that code and the four-momentum (0, 0, 0, M). *)
Theorem SetStruckNucleonPDGCode_twice (e : Env) (c : Z) :
  pdg.IsNeutronOrProton c = true ->
  outcome ((SetStruckNucleonPDGCode c ;; SetStruckNucleonPDGCode c) e)
    = outcome (SetStruckNucleonPDGCode c e)
  /\ (forall particle, Find c = Some particle ->
      owns_p4 (mem e) (this e) = true ->
      exists e1 e2,
        SetStruckNucleonPDGCode c e = Ok (tt, e1) /\
        (SetStruckNucleonPDGCode c ;; SetStruckNucleonPDGCode c) e = Ok (tt, e2) /\
        StruckNucleonPDGCode (this e2) = c /\
        StruckNucleonPDGCode (this e1) = c /\
        fStruckNucP4 (observe e2) = Some (mkP4 d0 d0 d0 (Mass particle)) /\
        fStruckNucP4 (observe e1) = Some (mkP4 d0 d0 d0 (Mass particle))).
Proof.
  intros Hc. split.
  - unfold bind at 1. unfold res_bind.
    destruct (Find c) as [particle|] eqn:Hf.
    2:{ rewrite (SetStruckNucleonPDGCode_valid _ _ Hc), Hf. reflexivity. }
    destruct (fStruckNucP4 (this e)) as [old|] eqn:Hp.
    + destruct (deref (mem e) old) as [v|] eqn:Hv.
      * destruct (SetStruckNucleonPDGCode_live c e particle old v Hc Hf Hp Hv)
          as (e1 & Hrun & Hthis & _ & _ & Hown & Hobs).
        rewrite Hrun. apply owns_p4_true in Hown. destruct Hown as (p1 & v1 & Hp1 & Hv1).
        destruct (SetStruckNucleonPDGCode_live c e1 particle p1 v1 Hc Hf Hp1 Hv1)
          as (e2 & Hrun2 & _ & _ & _ & _ & Hobs2).
        rewrite Hrun2. cbn. rewrite Hobs, Hobs2, Hthis. reflexivity.
      * rewrite (SetStruckNucleonPDGCode_valid _ _ Hc), Hf.
        erewrite SetStruckNucleonP4_dangling by eauto. reflexivity.
    + rewrite (SetStruckNucleonPDGCode_valid e _ Hc), Hf.
      rewrite SetStruckNucleonP4_null by exact Hp.
      rewrite (SetStruckNucleonPDGCode_valid _ _ Hc), Hf.
      erewrite SetStruckNucleonP4_owned; cbn; [| reflexivity | apply deref_alloc_fresh].
      unfold observe, resolve. cbn. f_equal.
      rewrite deref_alloc_fresh.
      rewrite <- (length_insert (mem e ++ [Some (mkP4 d0 d0 d0 (Mass particle))]) (length (mem e)) None) at 1.
      rewrite deref_alloc_fresh. reflexivity.
  - intros particle Hf Hown. apply owns_p4_true in Hown. destruct Hown as (old & v & Hp & Hv).
    destruct (SetStruckNucleonPDGCode_live c e particle old v Hc Hf Hp Hv)
      as (e1 & Hrun & Hthis & _ & _ & Hown & Hobs).
    apply owns_p4_true in Hown. destruct Hown as (p1 & v1 & Hp1 & Hv1).
    destruct (SetStruckNucleonPDGCode_live c e1 particle p1 v1 Hc Hf Hp1 Hv1)
      as (e2 & Hrun2 & Hthis2 & _ & _ & _ & Hobs2).
    exists e1, e2. unfold bind, res_bind. rewrite Hrun, Hrun2, Hobs, Hobs2, Hthis, Hthis2.
    repeat split.
Qed.

Lemma SetZA_free_nucleon (e : Env) (Z A code : Z) :
  A = 1 ->
  (Z = 1 /\ code = pdg.kPdgProton) \/ (Z = 0 /\ code = pdg.kPdgNeutron) ->
  SetZA Z A e =
    SetStruckNucleonPDGCode code (mkEnv (with_fA A (with_fZ Z (this e))) (mem e) (log e)).
Proof.
  intros -> [[-> ->] | [-> ->]]; reflexivity.
Qed.

(** C7. For A = 1 and Z = 1 (proton) or Z = 0 (neutron), with the nucleon
    in the particle table: after the constructor from (Z, A), and after
    [SetZA(Z, A)] on a target that owns its four-momentum, [IsFreeNucleon()]
    is true, the struck nucleon is that nucleon and its four-momentum is
    (0, 0, 0, M), M being the mass of the nucleon in the table. *)
Theorem free_nucleon_struck_nucleon (e : Env) (Z A code : Z) (particle : TParticlePDG double) :
  A = 1 ->
  (Z = 1 /\ code = pdg.kPdgProton) \/ (Z = 0 /\ code = pdg.kPdgNeutron) ->
  Find code = Some particle ->
  let auto_populated (e' : Env) :=
    IsFreeNucleon (this e') = true /\
    Z_ (this e') = Z /\ A_ (this e') = A /\
    StruckNucleonIsSet (this e') = true /\
    StruckNucleonPDGCode (this e') = code /\
    fStruckNucP4 (observe e') = Some (mkP4 d0 d0 d0 (Mass particle)) in
  (exists e', Target_ZA Z A e = Ok (tt, e') /\ auto_populated e') /\
  (owns_p4 (mem e) (this e) = true ->
   exists e', SetZA Z A e = Ok (tt, e') /\ auto_populated e').
Proof.
  intros HA HZ Hf auto_populated.
  assert (Hcode : pdg.IsNeutronOrProton code = true).
  { destruct HZ as [[_ ->] | [_ ->]]; reflexivity. }
  assert (Hpost : forall e0 old v,
             fStruckNucP4 (this e0) = Some old -> deref (mem e0) old = Some v ->
             exists e', SetZA Z A e0 = Ok (tt, e') /\ auto_populated e').
  { intros e0 old v Hp Hv. rewrite (SetZA_free_nucleon e0 Z A code HA HZ).
    destruct (SetStruckNucleonPDGCode_live code
                (mkEnv (with_fA A (with_fZ Z (this e0))) (mem e0) (log e0))
                particle old v Hcode Hf Hp Hv)
      as (e' & Hrun & Hthis & _ & _ & _ & Hobs).
    exists e'. split; [exact Hrun|]. unfold auto_populated. rewrite Hobs, Hthis.
    subst A. destruct HZ as [[-> ->] | [-> ->]]; repeat split. }
  split.
  - unfold Target_ZA. unfold bind at 1. rewrite Init_spec. cbn [res_bind].
    unfold bind at 1. cbn [modify_this res_bind this mem log].
    eapply Hpost; cbn; [reflexivity | apply deref_alloc_fresh].
  - intros Hown. apply owns_p4_true in Hown. destruct Hown as (old & v & Hp & Hv). eauto.
Qed.

Lemma IsValidNucleus_members (P Q : Type) (t : TargetOf P) (t' : TargetOf Q) :
  fZ t = fZ t' -> fA t = fA t' -> IsValidNucleus t = IsValidNucleus t'.
Proof. intros HZ HA. unfold IsValidNucleus, IsFreeNucleon. rewrite HZ, HA. reflexivity. Qed.

Lemma invariant_true (st : Store TLorentzVector) (t : Target) :
  invariant st t = true <->
  nucleus_forced t = true /\ nucleon_forced t = true /\ owns_p4 st t = true.
Proof. unfold invariant. rewrite !andb_true_iff. tauto. Qed.


Lemma ForceNucleusValidity_forced (e : Env) :
  nucleus_forced (this e) = true ->
  exists lg, ForceNucleusValidity e = Ok (tt, mkEnv (this e) (mem e) lg).
Proof.
  intros Hforced. unfold ForceNucleusValidity, bind, get_this, res_bind. cbn.
  unfold nucleus_forced in Hforced.
  destruct (IsValidNucleus (this e)); cbn.
  - exists (log e). destruct e; reflexivity.
  - cbn in Hforced. apply andb_true_iff in Hforced. destruct Hforced as [HZ HA].
    apply Z.eqb_eq in HZ, HA.
    exists (log e ++ [mkLog "Target" pWARN "Invalid target -- Reseting to Z = 0, A = 0"]).
    unfold LOG, modify_this. cbn.
    destruct e as [[] ? ?]; cbn in *; subst. reflexivity.
Qed.

Lemma ForceStruckNucleonValidity_forced (e : Env) :
  nucleon_forced (this e) = true ->
  exists b lg, ForceStruckNucleonValidity e = Ok (b, mkEnv (this e) (mem e) lg).
Proof.
  intros Hforced. unfold ForceStruckNucleonValidity, bind, get_this, res_bind. cbn.
  unfold nucleon_forced in Hforced.
  destruct (pdg.IsProton (fStruckNucPDG (this e)) || pdg.IsNeutron (fStruckNucPDG (this e)))
    eqn:Hvalid; cbn.
  - exists true, (log e). destruct e; reflexivity.
  - rewrite <- orb_assoc, Hvalid, orb_false_r in Hforced. apply Z.eqb_eq in Hforced.
    exists false, (log e ++ [mkLog "Target" pDEBUG "Reseting to struck nucleon to 'Rootino'"]).
    destruct e as [[] ? ?]; cbn in *; subst. reflexivity.
Qed.

Lemma Copy_run (e : Env) (tgt : Target) (q : loc) (v : TLorentzVector) :
  nucleus_forced tgt = true ->
  nucleon_forced tgt = true ->
  fStruckNucP4 tgt = Some q ->
  deref (mem e) q = Some v ->
  let initial := Some (mkP4 d0 d0 d0 kNucleonMass) in
  exists lg,
    Copy tgt e =
      Ok (tt,
          if IsIon (fTgtPDG tgt)
          then mkEnv (with_fStruckNucP4 (Some (length (mem e ++ [initial]))) tgt)
                     ((mem e ++ [initial]) ++ [Some v]) lg
          else mkEnv (mkTarget 0 0 (fTgtPDG tgt) 0 0 false (Some (length (mem e))))
                     (mem e ++ [initial]) lg).
Proof.
  intros Hnucleus Hnucleon Hq Hv initial.
  unfold Copy. unfold bind at 1. rewrite Init_spec. cbn [res_bind].
  unfold bind at 1. cbn [modify_this res_bind this mem log].
  unfold bind at 1. cbn [get_this res_bind this mem log with_fTgtPDG fTgtPDG].
  destruct (IsIon (fTgtPDG tgt)) eqn:Hion; [|exists (log e); reflexivity].
  do 5 (unfold bind at 1; cbn [modify_this res_bind this mem log]).
  rewrite Hq. unfold bind at 1. unfold bind at 1. unfold load at 1.
  cbn [this mem log res_bind].
  rewrite (deref_alloc_live _ _ _ _ Hv). cbn [res_bind].
  unfold bind at 1. cbn [new alloc this mem log res_bind modify_this].
  set (e1 := mkEnv _ _ _).
  destruct (ForceNucleusValidity_forced e1) as (lg1 & Hrun1).
  { unfold nucleus_forced in *. rewrite <- Hnucleus.
    rewrite (IsValidNucleus_members _ _ (this e1) tgt) by reflexivity. reflexivity. }
  unfold bind at 1. rewrite Hrun1. cbn [res_bind].
  destruct (ForceStruckNucleonValidity_forced (mkEnv (this e1) (mem e1) lg1))
    as (b & lg2 & Hrun2); [exact Hnucleon|].
  unfold bind at 1. rewrite Hrun2. cbn [res_bind ret].
  exists lg2. subst e1. cbn [this mem]. destruct tgt; reflexivity.
Qed.

(** C8, as amended. Copying a target gives an object with a four-momentum
    cell of its own, fresh and other than the cell of the source, which is
    left as it was. When the PDG code of the source is an ion code the copy
    equals the source on every observer, the four-momentum value included;
    for any other code the copy keeps the PDG code only and has the members
    that [Init] sets. *)
Theorem Copy_keeps_ions_only (e : Env) (tgt : Target) :
  invariant (mem e) tgt = true ->
  exists e' p q,
    Copy tgt e = Ok (tt, e') /\
    fStruckNucP4 tgt = Some q /\ fStruckNucP4 (this e') = Some p /\
    p <> q /\ deref (mem e) p = None /\
    resolve (mem e') tgt = resolve (mem e) tgt /\
    observe e' =
      if IsIon (fTgtPDG tgt) then resolve (mem e) tgt
      else mkTarget 0 0 (fTgtPDG tgt) 0 0 false (Some (mkP4 d0 d0 d0 kNucleonMass)).
Proof.
  intros Hinv. apply invariant_true in Hinv. destruct Hinv as (Hnucleus & Hnucleon & Hown).
  apply owns_p4_true in Hown. destruct Hown as (q & v & Hq & Hv).
  pose proof (deref_Some_lt _ _ _ Hv) as Hlt.
  destruct (Copy_run e tgt q v Hnucleus Hnucleon Hq Hv) as (lg & Hrun).
  rewrite Hrun. destruct (IsIon (fTgtPDG tgt)).
  - eexists _, _, q. split; [reflexivity|]. split; [exact Hq|].
    cbn [this mem with_fStruckNucP4 fStruckNucP4].
    split; [reflexivity|]. split; [rewrite length_app; cbn; lia|].
    split; [rewrite length_app; cbn; unfold deref; rewrite lookup_ge_None_2 by lia; reflexivity|].
    split.
    + unfold resolve. rewrite Hq.
      rewrite !deref_alloc_old by (rewrite ?length_app; cbn; lia). reflexivity.
    + unfold observe, resolve. cbn [this mem with_fStruckNucP4 fStruckNucP4].
      rewrite deref_alloc_fresh, Hq, Hv. destruct tgt; reflexivity.
  - eexists _, _, q. split; [reflexivity|]. split; [exact Hq|].
    cbn [this mem fStruckNucP4].
    split; [reflexivity|]. split; [lia|].
    split; [apply deref_fresh_None|].
    split.
    + unfold resolve. rewrite Hq. rewrite deref_alloc_old by lia. reflexivity.
    + unfold observe, resolve. cbn [this mem fStruckNucP4].
      rewrite deref_alloc_fresh. reflexivity.
Qed.

(** *** The class invariant is established by the constructors and kept by
    the mutators *)


Lemma nucleus_forced_members (P Q : Type) (t : TargetOf P) (t' : TargetOf Q) :
  fZ t = fZ t' -> fA t = fA t' -> nucleus_forced t = nucleus_forced t'.
Proof.
  intros HZ HA. unfold nucleus_forced.
  rewrite (IsValidNucleus_members _ _ t t' HZ HA), HZ, HA. reflexivity.
Qed.

Lemma ForceNucleusValidity_run (e : Env) :
  exists e', ForceNucleusValidity e = Ok (tt, e') /\
    nucleus_forced (this e') = true /\ mem e' = mem e /\
    fStruckNucPDG (this e') = fStruckNucPDG (this e) /\
    fStruckNucP4 (this e') = fStruckNucP4 (this e) /\
    (IsFreeNucleon (this e') = true -> this e' = this e).
Proof.
  unfold ForceNucleusValidity, bind, get_this, res_bind. cbn.
  destruct (IsValidNucleus (this e)) eqn:Hvalid; cbn.
  - eexists. split; [reflexivity|]. cbn. unfold nucleus_forced. rewrite Hvalid. auto.
  - eexists. split; [reflexivity|]. cbn. repeat split.
    + unfold nucleus_forced. cbn. apply orb_true_r.
    + discriminate.
Qed.

Lemma SetStruckNucleonPDGCode_keeps (c : Z) : keeps (SetStruckNucleonPDGCode c).
Proof.
  intros e a e' Hinv Hrun. apply invariant_true in Hinv. destruct Hinv as (Hn & _ & Hown).
  apply owns_p4_true in Hown. destruct Hown as (old & v & Hp & Hv).
  destruct (pdg.IsNeutronOrProton c) eqn:Hc.
  - destruct (Find c) as [particle|] eqn:Hf.
    + destruct (SetStruckNucleonPDGCode_live c e particle old v Hc Hf Hp Hv)
        as (e1 & Hrun1 & Hthis & _ & _ & Hown1 & _).
      rewrite Hrun1 in Hrun. injection Hrun as _ <-.
      apply invariant_true. split; [|split; [|exact Hown1]].
      * rewrite <- Hn. apply nucleus_forced_members; rewrite Hthis; reflexivity.
      * rewrite Hthis. unfold nucleon_forced. cbn. apply nucleon_code_valid in Hc.
        rewrite <- orb_assoc, Hc. apply orb_true_r.
    + rewrite (SetStruckNucleonPDGCode_valid _ _ Hc), Hf in Hrun. discriminate.
  - unfold SetStruckNucleonPDGCode, ForceStruckNucleonValidity, bind, modify_this, get_this,
      res_bind, ret in Hrun. cbn in Hrun.
    unfold pdg.IsNeutronOrProton in Hc. rewrite orb_comm in Hc. rewrite Hc in Hrun.
    cbn in Hrun. injection Hrun as _ <-.
    apply invariant_true. cbn. split; [|split].
    + rewrite <- Hn. apply nucleus_forced_members; reflexivity.
    + reflexivity.
    + apply owns_p4_true. cbn. eauto.
Qed.

Lemma SetZA_keeps (Z A : Z) : keeps (SetZA Z A).
Proof.
  intros e a e' Hinv Hrun. apply invariant_true in Hinv. destruct Hinv as (_ & Hnucleon & Hown).
  unfold SetZA in Hrun.
  do 2 (unfold bind at 1 in Hrun; cbn [modify_this res_bind this mem log] in Hrun).
  set (e0 := mkEnv _ _ _) in Hrun.
  destruct (ForceNucleusValidity_run e0) as (e1 & Hrun1 & Hforced & Hmem & Hcode & Hptr & _).
  unfold bind at 1 in Hrun. rewrite Hrun1 in Hrun. cbn [res_bind] in Hrun.
  unfold bind at 1 in Hrun. cbn [get_this res_bind] in Hrun.
  assert (Hinv1 : invariant (mem e1) (this e1) = true).
  { apply invariant_true. split; [exact Hforced|]. split.
    - unfold nucleon_forced. rewrite Hcode. exact Hnucleon.
    - unfold owns_p4. rewrite Hptr, Hmem. exact Hown. }
  destruct (IsFreeNucleon (this e1)).
  - destruct (IsProton (this e1)); eapply SetStruckNucleonPDGCode_keeps; eauto.
  - injection Hrun as _ <-. exact Hinv1.
Qed.

Lemma owns_p4_fresh (st : Store TLorentzVector) (v : TLorentzVector) (t : Target) :
  fStruckNucP4 t = Some (length st) -> owns_p4 (st ++ [Some v]) t = true.
Proof.
  intros Hp. apply owns_p4_true. exists (length st), v. split; [exact Hp | apply deref_alloc_fresh].
Qed.

Lemma nucleus_forced_empty (P : Type) (t : TargetOf P) :
  fZ t = 0 -> fA t = 0 -> nucleus_forced t = true.
Proof. intros HZ HA. unfold nucleus_forced. rewrite HZ, HA. apply orb_true_r. Qed.

Lemma Target_default_establishes : establishes Target_.
Proof.
  intros e a e' Hrun. unfold Target_ in Hrun. rewrite Init_spec in Hrun.
  injection Hrun as _ <-. apply invariant_true.
  split; [apply nucleus_forced_empty; reflexivity|].
  split; [reflexivity|]. apply owns_p4_fresh. reflexivity.
Qed.

Lemma Target_ZA_establishes (Z A : Z) : establishes (Target_ZA Z A).
Proof.
  intros e a e' Hrun. unfold Target_ZA in Hrun.
  unfold bind at 1 in Hrun. rewrite Init_spec in Hrun. cbn [res_bind] in Hrun.
  unfold bind at 1 in Hrun. cbn [modify_this res_bind this mem log] in Hrun.
  eapply SetZA_keeps; [|exact Hrun].
  apply invariant_true.
  split; [apply nucleus_forced_empty; reflexivity|].
  split; [reflexivity|]. apply owns_p4_fresh. reflexivity.
Qed.

Lemma Target_copy_establishes (tgt : Target) (e e' : Env) :
  invariant (mem e) tgt = true ->
  Target_copy tgt e = Ok (tt, e') -> invariant (mem e') (this e') = true.
Proof.
  intros Hinv Hrun.
  apply invariant_true in Hinv. destruct Hinv as (Hnucleus & Hnucleon & Hown).
  apply owns_p4_true in Hown. destruct Hown as (q & v & Hq & Hv).
  destruct (Copy_run e tgt q v Hnucleus Hnucleon Hq Hv) as (lg & Hrun1).
  unfold Target_copy in Hrun. rewrite Hrun1 in Hrun. injection Hrun as <-.
  apply invariant_true. destruct (IsIon (fTgtPDG tgt)); cbn [this mem].
  - split; [|split].
    + rewrite <- Hnucleus. apply nucleus_forced_members; reflexivity.
    + exact Hnucleon.
    + apply owns_p4_fresh. reflexivity.
  - split; [apply nucleus_forced_empty; reflexivity|].
    split; [reflexivity|]. apply owns_p4_fresh. reflexivity.
Qed.

Lemma SetStruckNucleonP4_keeps (p4 : TLorentzVector) : keeps (SetStruckNucleonP4 p4).
Proof.
  intros e a e' Hinv Hrun. apply invariant_true in Hinv. destruct Hinv as (Hn & Hc & Hown).
  apply owns_p4_true in Hown. destruct Hown as (old & v & Hp & Hv).
  rewrite (SetStruckNucleonP4_owned e p4 old v Hp Hv) in Hrun. injection Hrun as _ <-.
  apply invariant_true. split; [|split].
  - rewrite <- Hn. apply nucleus_forced_members; reflexivity.
  - exact Hc.
  - rewrite <- (length_insert (mem e) old None). apply owns_p4_fresh. reflexivity.
Qed.

Lemma SetStruckQuarkPDGCode_keeps (pdgc : Z) : keeps (SetStruckQuarkPDGCode pdgc).
Proof.
  intros e a e' Hinv Hrun. unfold SetStruckQuarkPDGCode in Hrun.
  destruct (IsQuark pdgc || IsAntiQuark pdgc); injection Hrun as _ <-; [|exact Hinv].
  apply invariant_true in Hinv. destruct Hinv as (Hn & Hc & Hown).
  apply invariant_true. split; [|split]; [|exact Hc|exact Hown].
  rewrite <- Hn. apply nucleus_forced_members; reflexivity.
Qed.

Lemma SetStruckSeaQuark_keeps (tf : bool) : keeps (SetStruckSeaQuark tf).
Proof.
  intros e a e' Hinv Hrun. injection Hrun as _ <-.
  apply invariant_true in Hinv. destruct Hinv as (Hn & Hc & Hown).
  apply invariant_true. split; [|split]; [|exact Hc|exact Hown].
  rewrite <- Hn. apply nucleus_forced_members; reflexivity.
Qed.

Lemma Target_ZA_nucleon_establishes (Z A struck_nucleon_pdgc : Z) :
  establishes (Target_ZA_nucleon Z A struck_nucleon_pdgc).
Proof.
  intros e a e' Hrun. unfold Target_ZA_nucleon in Hrun.
  unfold bind at 1 in Hrun. rewrite Init_spec in Hrun. cbn [res_bind] in Hrun.
  do 3 (unfold bind at 1 in Hrun; cbn [modify_this res_bind this mem log] in Hrun).
  set (e0 := mkEnv _ _ _) in Hrun.
  destruct (ForceNucleusValidity_run e0) as (e1 & Hrun1 & Hforced & Hmem & Hcode & Hptr & _).
  unfold bind at 1 in Hrun. rewrite Hrun1 in Hrun. cbn [res_bind] in Hrun.
  eapply SetStruckNucleonPDGCode_keeps; [|exact Hrun].
  apply invariant_true. split; [exact Hforced|]. split.
  - unfold nucleon_forced. rewrite Hcode. reflexivity.
  - unfold owns_p4. rewrite Hptr, Hmem. apply owns_p4_fresh. reflexivity.
Qed.
End TargetFacts.

(** ** The store of interactions *)

Section WorldFacts.
Context `{Externals} `{RandomGen}.
Import Interaction EVG.

Lemma load_fresh (st : Store Interaction) (v : Interaction) r lg :
  load (length st) (mkWorld (st ++ [Some v]) r lg) = Ok (v, mkWorld (st ++ [Some v]) r lg).
Proof. unfold load. cbn. rewrite deref_alloc_fresh. reflexivity. Qed.

Lemma store_fresh (st : Store Interaction) (v v' : Interaction) r lg :
  store (length st) v' (mkWorld (st ++ [Some v]) r lg) = Ok (tt, mkWorld (st ++ [Some v']) r lg).
Proof.
  unfold store, assign. cbn. rewrite deref_alloc_fresh. cbn.
  rewrite insert_app_r_alt by lia. replace (length st - length st)%nat with 0%nat by lia.
  reflexivity.
Qed.

End WorldFacts.

(** ** Channel enumeration *)

Section EnumerationFacts.
Context `{Externals} `{RandomGen}.
Import SppChannel Interaction EVG RSPPInteractionListGenerator.
Local Open Scope Z_scope.

Lemma on_value_SetStruckNucleonPDGCode (c : Z) (particle : TParticlePDG double)
    (tv : Target.TargetVal) :
  pdg.IsNeutronOrProton c = true ->
  Find c = Some particle ->
  Target.on_value (Target.SetStruckNucleonPDGCode c) tv =
    Ok (tt, Target.with_fStruckNucP4 (Some (mkP4 d0 d0 d0 (Mass particle)))
              (Target.with_fStruckNucPDG c tv)).
Proof.
  intros Hc Hf. unfold Target.on_value, Target.place.
  rewrite (SetStruckNucleonPDGCode_valid _ _ Hc), Hf.
  destruct (Target.fStruckNucP4 tv) as [p4|] eqn:Hp.
  - rewrite (SetStruckNucleonP4_owned _ _ 0%nat p4) by reflexivity. reflexivity.
  - rewrite SetStruckNucleonP4_null by reflexivity. reflexivity.
Qed.


Lemma add_channel_run (array : string) (channels : list SppChannel_t) (cfg : Config)
    (init_state : InitialState) (pp pn : TParticlePDG double)
    (i : nat) (channel : SppChannel_t) (intlist : InteractionList) (w : World) :
  Find pdg.kPdgProton = Some pp ->
  Find pdg.kPdgNeutron = Some pn ->
  channels !! i = Some channel ->
  add_channel array channels (spec_current cfg) init_state
              (Target.Z_ (TgtPtr init_state) >? 0) (Target.N_ (TgtPtr init_state) >? 0)
              i intlist w =
    if spec_admitted (TgtPtr init_state) channel then
      Ok (intlist ++ [length (objs w)],
          mkWorld (objs w ++ [Some (spec_interaction cfg init_state channel)]) (rnd w) (msgs w))
    else Ok (intlist, w).
Proof.
  intros Hpp Hpn Hch.
  unfold add_channel. unfold bind at 1. unfold lift, array_get. rewrite Hch. cbn [res_bind].
  unfold spec_admitted.
  destruct ((InitStateNucleon channel =? pdg.kPdgProton) && _ || _) eqn:Hadm; [|reflexivity].
  assert (Hnuc : exists particle,
             Find (InitStateNucleon channel) = Some particle /\
             pdg.IsNeutronOrProton (InitStateNucleon channel) = true).
  { destruct channel; cbn in Hadm |- *; try discriminate; eauto. }
  destruct Hnuc as (particle & Hfind & Hvalid).
  unfold bind at 1. cbn [new alloc res_bind objs rnd msgs].
  unfold bind at 1. unfold SetHitNucPdg. unfold bind at 1.
  rewrite load_fresh. cbn [res_bind].
  unfold bind at 1. unfold lift at 1.
  rewrite (on_value_SetStruckNucleonPDGCode _ particle _ Hvalid Hfind). cbn [res_bind snd].
  rewrite store_fresh. cbn [res_bind].
  unfold bind at 1.
  assert (Hfinal : forall v r lg,
             AddFinalStateInfo (length (objs w)) channel (mkWorld (objs w ++ [Some v]) r lg) =
             Ok (tt, mkWorld (objs w ++ [Some (SetExclTag (spec_tag channel) v)]) r lg)).
  { intros v r lg. unfold AddFinalStateInfo.
    destruct channel; cbn in Hadm; try discriminate;
      cbn -[load store]; unfold bind; rewrite load_fresh; cbn [res_bind];
      rewrite store_fresh; reflexivity. }
  rewrite Hfinal. cbn [res_bind ret].
  unfold spec_interaction. rewrite Hfind. reflexivity.
Qed.


Lemma for_loop_channels (array : string) (cfg : Config) (init_state : InitialState)
    (pp pn : TParticlePDG double) (rest : list SppChannel_t) :
  Find pdg.kPdgProton = Some pp ->
  Find pdg.kPdgNeutron = Some pn ->
  forall (done : list SppChannel_t) (intlist : InteractionList) (w : World),
  let admitted := List.filter (spec_admitted (TgtPtr init_state)) rest in
  for_loop (length rest) (length done)
           (add_channel array (done ++ rest) (spec_current cfg) init_state
                        (Target.Z_ (TgtPtr init_state) >? 0)
                        (Target.N_ (TgtPtr init_state) >? 0))
           intlist w =
    Ok (intlist ++ seq (length (objs w)) (length admitted),
        mkWorld (objs w ++ map (fun ch => Some (spec_interaction cfg init_state ch)) admitted)
                (rnd w) (msgs w)).
Proof.
  intros Hpp Hpn. induction rest as [|channel rest IH]; intros done intlist w.
  - cbn. rewrite !app_nil_r. destruct w; reflexivity.
  - cbn [length for_loop List.filter]. unfold bind at 1.
    rewrite (add_channel_run _ _ _ _ pp pn _ channel) by
      (assumption || (rewrite lookup_app_r by lia; rewrite Nat.sub_diag; reflexivity)).
    replace (done ++ channel :: rest) with ((done ++ [channel]) ++ rest)
      by (rewrite <- app_assoc; reflexivity).
    replace (S (length done)) with (length (done ++ [channel]))
      by (rewrite length_app; cbn; lia).
    destruct (spec_admitted (TgtPtr init_state) channel); cbn [res_bind].
    + rewrite IH. cbn [objs rnd msgs length map seq].
      rewrite length_app. cbn [length]. rewrite <- !app_assoc. cbn [app].
      replace (length (objs w) + 1)%nat with (S (length (objs w))) by lia. reflexivity.
    + rewrite IH. reflexivity.
Qed.

Lemma fill_channels_declared (nupdg : Z) :
  fill_channels nupdg (array_decl n_nucc_channels kSppNull)
                      (array_decl n_nunc_channels kSppNull) =
    Ok (if pdg.IsNeutrino nupdg || pdg.IsAntiNeutrino nupdg
        then Some (spec_channel_table nupdg kIntWeakCC, spec_channel_table nupdg kIntWeakNC)
        else None).
Proof.
  unfold fill_channels, spec_channel_table.
  destruct (pdg.IsNeutrino nupdg); [reflexivity|].
  destruct (pdg.IsAntiNeutrino nupdg); reflexivity.
Qed.

Lemma spec_channel_table_length (nupdg : Z) :
  pdg.IsNeutrino nupdg || pdg.IsAntiNeutrino nupdg = true ->
  length (spec_channel_table nupdg kIntWeakCC) = n_nucc_channels /\
  length (spec_channel_table nupdg kIntWeakNC) = n_nunc_channels.
Proof.
  unfold spec_channel_table. destruct (pdg.IsNeutrino nupdg); [split; reflexivity|].
  destruct (pdg.IsAntiNeutrino nupdg); [split; reflexivity | discriminate].
Qed.

Lemma spec_channel_table_other (nupdg : Z) (current : InteractionType_t) :
  pdg.IsNeutrino nupdg || pdg.IsAntiNeutrino nupdg = false ->
  spec_channel_table nupdg current = [].
Proof.
  unfold spec_channel_table. destruct (pdg.IsNeutrino nupdg); [discriminate|].
  destruct (pdg.IsAntiNeutrino nupdg); [discriminate | reflexivity].
Qed.

(** With [nunc_channels] declared with [n_nunc_channels] cells, the
    enumeration is the one the specification describes: the admitted channels
    of the table of the probe sign and the configured current, in the order of
    the table, each as a fresh interaction; the null pointer when none is
    admitted, in which case no interaction stays allocated. *)
Theorem CreateInteractionList_sized_enumerates (cfg : Config) (init_state : InitialState)
    (pp pn : TParticlePDG double) (w : World) :
  Find pdg.kPdgProton = Some pp ->
  Find pdg.kPdgNeutron = Some pn ->
  let channels := spec_channels cfg init_state in
  exists lg,
    CreateInteractionList_sized n_nunc_channels cfg init_state w =
      Ok (match channels with
          | [] => None
          | _ => Some (seq (length (objs w)) (length channels))
          end,
          mkWorld (objs w ++ map (fun ch => Some (spec_interaction cfg init_state ch)) channels)
                  (rnd w) (msgs w ++ lg)).
Proof.
  intros Hpp Hpn channels. subst channels.
  unfold CreateInteractionList_sized, spec_channels.
  unfold bind at 1. cbn [LOG res_bind objs rnd msgs].
  unfold bind at 1. unfold lift at 1. rewrite fill_channels_declared. cbn [res_bind].
  destruct (pdg.IsNeutrino (ProbePdg init_state) || pdg.IsAntiNeutrino (ProbePdg init_state))
    eqn:Hprobe.
  - destruct (spec_channel_table_length _ Hprobe) as [Hcc Hnc].
    set (w1 := mkWorld _ _ _).
    assert (Hloop : forall current table,
               table = spec_channel_table (ProbePdg init_state) (spec_current cfg) ->
               current = spec_current cfg ->
               forall array,
               for_loop (length table) 0
                 (add_channel array table current init_state
                    (Target.Z_ (TgtPtr init_state) >? 0) (Target.N_ (TgtPtr init_state) >? 0))
                 [] w1 =
               Ok (seq (length (objs w)) (length (spec_channels cfg init_state)),
                   mkWorld (objs w ++ map (fun ch => Some (spec_interaction cfg init_state ch))
                                          (spec_channels cfg init_state))
                           (rnd w1) (msgs w1))).
    { intros current table -> -> array.
      exact (for_loop_channels array cfg init_state pp pn _ Hpp Hpn [] [] w1). }
    unfold spec_channels in Hloop.
    unfold bind at 1.
    assert (Hfinish : forall (intlist : InteractionList) (w2 : World),
               exists lg2,
                 (if (length intlist =? 0)%nat
                  then LOG "InteractionList" pERROR
                           "Returning NULL InteractionList for init-state: " ;; ret None
                  else ret (Some intlist)) w2 =
                 Ok (match intlist with [] => None | _ => Some intlist end,
                     mkWorld (objs w2) (rnd w2) (msgs w2 ++ lg2))).
    { intros [|l intlist] w2; cbn.
      - eexists. reflexivity.
      - exists []. rewrite app_nil_r. destruct w2; reflexivity. }
    unfold spec_current in *.
    destruct (fIsCC cfg); [|destruct (fIsNC cfg)].
    + rewrite <- Hcc, (Hloop _ _ eq_refl eq_refl). cbn [res_bind].
      edestruct Hfinish as [lg2 ->]. cbn [objs rnd msgs w1]. rewrite <- app_assoc.
      eexists. f_equal. f_equal.
      destruct (List.filter _ _); reflexivity.
    + rewrite <- Hnc, (Hloop _ _ eq_refl eq_refl). cbn [res_bind].
      edestruct Hfinish as [lg2 ->]. cbn [objs rnd msgs w1]. rewrite <- app_assoc.
      eexists. f_equal. f_equal.
      destruct (List.filter _ _); reflexivity.
    + unfold spec_channel_table.
      destruct (pdg.IsNeutrino _); [|destruct (pdg.IsAntiNeutrino _)]; cbn;
        rewrite app_nil_r; eexists; rewrite <- app_assoc; reflexivity.
  - rewrite spec_channel_table_other by assumption. cbn.
    rewrite app_nil_r. eexists. rewrite <- app_assoc. reflexivity.
Qed.
End EnumerationFacts.

(** ** Interaction selection *)

Section SelectionFacts.
Context `{Externals} `{RandomGen}.
Import Interaction EVG ToyInteractionSelector.


Lemma SelectInteraction_run (igmap : InteractionGeneratorMap) (p4 : TLorentzVector) (w : World) :
  draws_in_range ->
  owned (objs w) (GetInteractionList igmap) ->
  GetInteractionList igmap <> [] ->
  exists iint elem original,
    iint = fst (Integer (rnd w) (length (GetInteractionList igmap))) /\
    GetInteractionList igmap !! iint = Some elem /\
    deref (objs w) elem = Some original /\
    SelectInteraction (Some igmap) p4 w =
      Ok (Some (mkEventRecord (Some (length (objs w)))),
          mkWorld (objs w ++ [Some (with_fInitialState
                                      (SetProbeP4 p4 (fInitialState original)) original)])
                  (snd (Integer (rnd w) (length (GetInteractionList igmap))))
                  (msgs w ++ [mkLog "InteractionSelector" pINFO "Interaction to generate: "])).
Proof.
  intros Hrange Howned Hne.
  unfold SelectInteraction, size, GetInteractionList in *.
  destruct (fInteractionList igmap) as [|l0 ilst] eqn:Hlist; [congruence|].
  set (full := l0 :: ilst) in *.
  assert (Hpos : (0 < length full)%nat) by (cbn; lia).
  specialize (Hrange (rnd w) (length full) Hpos).
  destruct (Integer (rnd w) (length full)) as [iint r] eqn:Hdraw. cbn [fst snd] in *.
  destruct (lookup_lt_is_Some_2 full iint Hrange) as [elem Helem].
  destruct (Howned elem) as [original Horiginal].
  { eapply list_elem_of_lookup_2; eauto. }
  exists iint, elem, original. split; [reflexivity|]. split; [exact Helem|].
  split; [exact Horiginal|].
  replace (length full <=? 0)%nat with false by (symmetry; apply Nat.leb_gt; exact Hpos).
  unfold bind at 1. unfold draw. rewrite Hdraw. cbn [res_bind objs rnd msgs].
  unfold bind at 1. unfold lift, array_get. rewrite Helem. cbn [res_bind].
  unfold bind at 1. unfold load at 1. cbn [objs]. rewrite Horiginal. cbn [res_bind].
  unfold bind at 1. cbn [new alloc objs rnd msgs res_bind].
  unfold bind at 1. rewrite load_fresh. cbn [res_bind].
  unfold bind at 1. rewrite store_fresh. cbn [res_bind].
  reflexivity.
Qed.

(** C4. For every probe four-momentum, the selector returns null exactly
    when the handle is null or the list that it carries has no element, and
    then it allocates nothing and draws nothing; otherwise it returns an event
    record. The draw is in range and the list owns its elements. *)
Theorem SelectInteraction_null_iff_nothing_to_select
    (igmap : option InteractionGeneratorMap) (p4 : TLorentzVector) (w : World) :
  draws_in_range ->
  (forall m, igmap = Some m -> owned (objs w) (GetInteractionList m)) ->
  exists result w',
    SelectInteraction igmap p4 w = Ok (result, w') /\
    (result = None <->
     igmap = None \/ exists m, igmap = Some m /\ length (GetInteractionList m) = 0%nat) /\
    (result = None -> objs w' = objs w /\ rnd w' = rnd w).
Proof.
  intros Hrange Howned. destruct igmap as [m|].
  - destruct (GetInteractionList m) as [|l0 ilst] eqn:Hlist.
    + unfold SelectInteraction, size. unfold GetInteractionList in Hlist. rewrite Hlist. cbn.
      eexists _, _. split; [reflexivity|]. split; [|intros _; split; reflexivity].
      split; [|reflexivity]. intros _. right. exists m. split; [reflexivity|].
      unfold GetInteractionList. rewrite Hlist. reflexivity.
    + destruct (SelectInteraction_run m p4 w Hrange (Howned m eq_refl))
        as (iint & elem & original & _ & _ & _ & Hrun).
      { rewrite Hlist. discriminate. }
      rewrite Hrun. eexists _, _. split; [reflexivity|]. split; [|discriminate].
      split; [discriminate|]. intros [Hnull | (m' & Hm' & Hlen)]; [discriminate|].
      injection Hm' as <-. rewrite Hlist in Hlen. discriminate.
  - cbn. eexists _, _. split; [reflexivity|]. split; [|intros _; split; reflexivity].
    split; [|reflexivity]. intros _. left. reflexivity.
Qed.

(** C5. For a non-empty list and every probe four-momentum, the summary of
    the returned event record is a fresh object, none of the elements of the
    list, which stay as they were; it equals the element at the drawn index but
    for the probe four-momentum, which is the one supplied. *)
Theorem SelectInteraction_summary_is_a_clone
    (igmap : InteractionGeneratorMap) (p4 : TLorentzVector) (w : World) :
  draws_in_range ->
  owned (objs w) (GetInteractionList igmap) ->
  GetInteractionList igmap <> [] ->
  exists evrec w' iint elem original summary clone,
    SelectInteraction (Some igmap) p4 w = Ok (Some evrec, w') /\
    iint = fst (Integer (rnd w) (length (GetInteractionList igmap))) /\
    GetInteractionList igmap !! iint = Some elem /\
    deref (objs w) elem = Some original /\
    fInteraction evrec = Some summary /\
    deref (objs w') summary = Some clone /\
    (* a distinct object: fresh, not one of the elements of the list *)
    deref (objs w) summary = None /\
    (summary ∉ GetInteractionList igmap) /\
    summary <> elem /\
    (* the elements of the list are as they were *)
    (forall l, l ∈ GetInteractionList igmap -> deref (objs w') l = deref (objs w) l) /\
    (* equal to the element but for the probe four-momentum *)
    fProcInfo clone = fProcInfo original /\
    fExclusiveTag clone = fExclusiveTag original /\
    fProbePdg (fInitialState clone) = fProbePdg (fInitialState original) /\
    fTgt (fInitialState clone) = fTgt (fInitialState original) /\
    fProbeP4 (fInitialState clone) = p4.
Proof.
  intros Hrange Howned Hne.
  destruct (SelectInteraction_run igmap p4 w Hrange Howned Hne)
    as (iint & elem & original & Hiint & Helem & Horiginal & Hrun).
  assert (Hfresh : forall l, l ∈ GetInteractionList igmap -> (l < length (objs w))%nat).
  { intros l Hl. destruct (Howned l Hl) as [v Hv]. eapply deref_Some_lt; eauto. }
  assert (Hin : elem ∈ GetInteractionList igmap).
  { eapply list_elem_of_lookup_2; eauto. }
  eexists _, _, iint, elem, original, (length (objs w)), _.
  split; [exact Hrun|]. split; [exact Hiint|]. split; [exact Helem|].
  split; [exact Horiginal|]. split; [reflexivity|].
  cbn [objs]. split; [apply deref_alloc_fresh|]. split; [apply deref_fresh_None|].
  split; [intros Hl; apply Hfresh in Hl; lia|].
  split; [apply Hfresh in Hin; lia|].
  split; [intros l Hl; apply deref_alloc_old, Hfresh, Hl|].
  repeat split.
Qed.
End SelectionFacts.

(** ** The declared length of the channel arrays *)

Section DeclaredLength.
Context `{Externals} `{RandomGen}.
Import SppChannel Interaction EVG RSPPInteractionListGenerator.
Local Open Scope Z_scope.

Lemma fill_channels_source (nupdg : Z) :
  pdg.IsNeutrino nupdg || pdg.IsAntiNeutrino nupdg = true ->
  fill_channels nupdg (array_decl n_nucc_channels kSppNull)
                      (array_decl n_nucc_channels kSppNull) =
    Crash (OutOfBounds "nunc_channels" 3).
Proof.
  unfold fill_channels.
  destruct (pdg.IsNeutrino nupdg); [reflexivity|].
  destruct (pdg.IsAntiNeutrino nupdg); [reflexivity | discriminate].
Qed.

(** C3. For every neutrino or anti-neutrino probe the assignment to
    [nunc_channels[3]] is outside the three cells that the array is declared
    with: the run ends there, whatever the configuration and the target. *)
Theorem CreateInteractionList_writes_out_of_bounds
    (cfg : Config) (init_state : InitialState) (w : World) :
  pdg.IsNeutrino (ProbePdg init_state) || pdg.IsAntiNeutrino (ProbePdg init_state) = true ->
  CreateInteractionList cfg init_state w = Crash (OutOfBounds "nunc_channels" 3).
Proof.
  intros Hprobe. unfold CreateInteractionList, CreateInteractionList_sized.
  unfold bind at 1. cbn [LOG res_bind].
  unfold bind at 1. unfold lift at 1. rewrite (fill_channels_source _ Hprobe). reflexivity.
Qed.

Lemma for_loop_app {S A} (n m from : nat) (body : nat -> A -> St S A) (acc : A) (s : S) :
  for_loop (n + m) from body acc s =
    (let* acc' := for_loop n from body acc in for_loop m (from + n) body acc') s.
Proof.
  revert from acc s. induction n as [|n IH]; intros from acc s.
  - cbn. replace (from + 0)%nat with from by lia. reflexivity.
  - cbn [Nat.add for_loop]. unfold bind. destruct (body from acc s) as [[acc' s']|f].
    + cbn [res_bind]. rewrite IH. unfold bind.
      replace (Datatypes.S from + n)%nat with (from + Datatypes.S n)%nat by lia.
      reflexivity.
    + reflexivity.
Qed.

(** Whatever the three cells of [nunc_channels] hold, the neutral-current
    loop reads a fourth. *)
Lemma NC_loop_reads_out_of_bounds (cfg : Config) (init_state : InitialState)
    (pp pn : TParticlePDG double) (nunc_channels : list SppChannel_t)
    (intlist : InteractionList) (w : World) :
  Find pdg.kPdgProton = Some pp ->
  Find pdg.kPdgNeutron = Some pn ->
  length nunc_channels = n_nucc_channels ->
  for_loop n_nunc_channels 0
           (add_channel "nunc_channels" nunc_channels (spec_current cfg) init_state
                        (Target.Z_ (TgtPtr init_state) >? 0)
                        (Target.N_ (TgtPtr init_state) >? 0))
           intlist w =
    Crash (OutOfBounds "nunc_channels" 3).
Proof.
  intros Hpp Hpn Hlen.
  assert (Hsplit : n_nunc_channels = (length nunc_channels + 1)%nat) by (rewrite Hlen; reflexivity).
  rewrite Hsplit, for_loop_app. unfold bind at 1.
  pose proof (for_loop_channels "nunc_channels" cfg init_state pp pn nunc_channels
                Hpp Hpn [] intlist w) as Hloop.
  change (length (@nil SppChannel_t)) with 0%nat in Hloop.
  change ([] ++ nunc_channels) with nunc_channels in Hloop.
  cbv zeta in Hloop. rewrite Hloop.
  cbn [res_bind for_loop]. unfold bind at 1. unfold add_channel. unfold bind at 1.
  unfold lift, array_get. rewrite (lookup_ge_None_2 nunc_channels) by (cbn; lia).
  rewrite Hlen. reflexivity.
Qed.
End DeclaredLength.


(** ** The diffractive generator *)

Section DiffractiveFacts.
Context `{Externals} `{RandomGen}.
Import Interaction EVG.

(** C9. For every initial state the diffractive generator returns a
    non-null, empty list; it allocates nothing and logs one line. *)
Theorem Dfrc_CreateInteractionList_empty_list (init_state : InitialState) (w : World) :
  DfrcInteractionListGenerator.CreateInteractionList init_state w =
    Ok (Some [], mkWorld (objs w) (rnd w)
                         (msgs w ++ [mkLog "IntLst" pINFO "InitialState = "])).
Proof. reflexivity. Qed.
End DiffractiveFacts.


(** ** The life of a target: construction, setters, copy, destruction *)

Section TargetLifecycle.
Context `{Externals}.
Import Target.
Local Open Scope Z_scope.

Lemma ForceNucleusValidity_explicit (e : Env) :
  ForceNucleusValidity e =
    Ok (tt, if IsValidNucleus (this e) then e
            else mkEnv (with_fA 0 (with_fZ 0 (this e))) (mem e)
                       (log e ++ [mkLog "Target" pWARN
                                        "Invalid target -- Reseting to Z = 0, A = 0"])).
Proof.
  unfold ForceNucleusValidity, bind, get_this, res_bind. cbn.
  destruct (IsValidNucleus (this e)); cbn; [destruct e|]; reflexivity.
Qed.

Lemma SetStruckNucleonP4_explicit (e : Env) (p4 : TLorentzVector) :
  SetStruckNucleonP4 p4 e =
    match fStruckNucP4 (this e) with
    | None =>
        Ok (tt, mkEnv (with_fStruckNucP4 (Some (length (mem e))) (this e))
                      (mem e ++ [Some p4]) (log e))
    | Some old =>
        match deref (mem e) old with
        | Some _ =>
            Ok (tt, mkEnv (with_fStruckNucP4 (Some (length (mem e))) (this e))
                          (<[old := None]> (mem e) ++ [Some p4]) (log e))
        | None => Crash InvalidDelete
        end
    end.
Proof.
  destruct (fStruckNucP4 (this e)) as [old|] eqn:Hp.
  - destruct (deref (mem e) old) as [v|] eqn:Hv.
    + exact (SetStruckNucleonP4_owned e p4 old v Hp Hv).
    + exact (SetStruckNucleonP4_dangling e p4 old Hp Hv).
  - exact (SetStruckNucleonP4_null e p4 Hp).
Qed.

Lemma SetStruckNucleonPDGCode_invalid (e : Env) (c : Z) :
  pdg.IsNeutronOrProton c = false ->
  SetStruckNucleonPDGCode c e =
    Ok (tt, mkEnv (with_fStruckNucPDG 0 (this e)) (mem e)
                  (log e ++ [mkLog "Target" pDEBUG "Reseting to struck nucleon to 'Rootino'"])).
Proof.
  intros Hc. unfold pdg.IsNeutronOrProton in Hc. rewrite orb_comm in Hc.
  unfold SetStruckNucleonPDGCode, ForceStruckNucleonValidity, bind, modify_this, get_this,
    res_bind, ret. cbn. rewrite Hc. reflexivity.
Qed.

Lemma SetZA_explicit (e : Env) (Z A : Z) :
  SetZA Z A e =
    let t0 := with_fA A (with_fZ Z (this e)) in
    let e1 := if IsValidNucleus t0 then mkEnv t0 (mem e) (log e)
              else mkEnv (with_fA 0 (with_fZ 0 t0)) (mem e)
                         (log e ++ [mkLog "Target" pWARN
                                          "Invalid target -- Reseting to Z = 0, A = 0"]) in
    if IsFreeNucleon (this e1) then
      if IsProton (this e1) then SetStruckNucleonPDGCode pdg.kPdgProton e1
      else SetStruckNucleonPDGCode pdg.kPdgNeutron e1
    else Ok (tt, e1).
Proof.
  unfold SetZA.
  do 2 (unfold bind at 1; cbn [modify_this res_bind this mem log]).
  unfold bind at 1. rewrite ForceNucleusValidity_explicit. cbn [res_bind this mem log].
  unfold bind at 1. cbn [get_this res_bind]. cbv zeta.
  destruct (IsValidNucleus _); cbn [this]; destruct (IsFreeNucleon _); try reflexivity;
    destruct (IsProton _); reflexivity.
Qed.

Lemma observe_fresh (t : Target) (m : Store TLorentzVector) (p4 : TLorentzVector) lg :
  observe (mkEnv (with_fStruckNucP4 (Some (length m)) t) (m ++ [Some p4]) lg) =
    with_fStruckNucP4 (Some p4) t.
Proof. unfold observe, resolve. cbn. rewrite deref_alloc_fresh. reflexivity. Qed.


Lemma SetStruckNucleonPDGCode_explicit (e : Env) (c : Z) :
  pdg.IsNeutronOrProton c = true ->
  SetStruckNucleonPDGCode c e =
    match Find c with
    | None => Crash NullDereference
    | Some particle =>
        let p4 := mkP4 d0 d0 d0 (Mass particle) in
        let t := with_fStruckNucP4 (Some (length (mem e))) (with_fStruckNucPDG c (this e)) in
        match fStruckNucP4 (this e) with
        | None => Ok (tt, mkEnv t (mem e ++ [Some p4]) (log e))
        | Some old =>
            match deref (mem e) old with
            | Some _ => Ok (tt, mkEnv t (<[old := None]> (mem e) ++ [Some p4]) (log e))
            | None => Crash InvalidDelete
            end
        end
    end.
Proof.
  intros Hc. rewrite (SetStruckNucleonPDGCode_valid _ _ Hc).
  destruct (Find c) as [particle|]; [|reflexivity].
  rewrite SetStruckNucleonP4_explicit. reflexivity.
Qed.

(** X5. [SetStruckNucleonPDGCode] with a code that is neither the proton nor
    the neutron never fails: it leaves the struck nucleon unset, with code 0,
    logs the reset, and touches no other member and no four-momentum. *)
Theorem invalid_struck_nucleon_code_clears (e : Env) (c : Z) :
  pdg.IsNeutronOrProton c = false ->
  exists e',
    SetStruckNucleonPDGCode c e = Ok (tt, e') /\
    StruckNucleonPDGCode (this e') = 0 /\
    StruckNucleonIsSet (this e') = false /\
    with_fStruckNucPDG (fStruckNucPDG (this e)) (this e') = this e /\
    mem e' = mem e /\
    log e' = log e ++ [mkLog "Target" pDEBUG "Reseting to struck nucleon to 'Rootino'"].
Proof.
  intros Hc. rewrite (SetStruckNucleonPDGCode_invalid e c Hc).
  eexists. split; [reflexivity|]. cbn [this mem log].
  split; [reflexivity|]. split; [reflexivity|].
  split; [destruct (this e); reflexivity|]. split; reflexivity.
Qed.

(** X6. [SetStruckQuarkPDGCode] never fails and never clears a struck quark:
    a quark or anti-quark code is stored, any other code is ignored, so that a
    struck quark once set stays set; no other member, no four-momentum and no
    log line is touched. *)
Theorem struck_quark_stays_set (e : Env) (pdgc : Z) :
  exists e',
    SetStruckQuarkPDGCode pdgc e = Ok (tt, e') /\
    StruckQuarkIsSet (this e') =
      StruckQuarkIsSet (this e) || (IsQuark pdgc || IsAntiQuark pdgc) /\
    StruckQuarkPDGCode (this e') =
      (if IsQuark pdgc || IsAntiQuark pdgc then pdgc else StruckQuarkPDGCode (this e)) /\
    with_fStruckQuarkPDG (fStruckQuarkPDG (this e)) (this e') = this e /\
    mem e' = mem e /\ log e' = log e.
Proof.
  unfold SetStruckQuarkPDGCode.
  destruct (IsQuark pdgc || IsAntiQuark pdgc) eqn:Hq.
  - eexists. split; [reflexivity|]. cbn [this mem log].
    split; [unfold StruckQuarkIsSet; cbn; rewrite Hq; symmetry; apply orb_true_r|].
    split; [reflexivity|]. split; [destruct (this e); reflexivity|]. split; reflexivity.
  - exists e. split; [reflexivity|].
    split; [symmetry; apply orb_false_r|]. split; [reflexivity|].
    split; [destruct (this e); reflexivity|]. split; reflexivity.
Qed.

Ltac bool_cases :=
  repeat match goal with
  | |- context [Z.eqb ?a ?b] => destruct (Z.eqb_spec a b)
  | |- context [Z.gtb ?a ?b] => rewrite (Z.gtb_ltb a b); destruct (Z.ltb_spec b a)
  end.

(** X9. A target is at most one of particle, free nucleon and nucleus, a
    free nucleon is either the proton or the neutron and never both, whatever
    the members hold. *)
Theorem classification_is_exclusive (P : Type) (t : TargetOf P) :
  IsParticle t && IsFreeNucleon t = false /\
  IsParticle t && IsNucleus t = false /\
  IsFreeNucleon t && IsNucleus t = false /\
  IsProton t && IsNeutron t = false /\
  IsFreeNucleon t = IsProton t || IsNeutron t.
Proof.
  unfold IsParticle, IsFreeNucleon, IsNucleus, IsProton, IsNeutron.
  destruct (Find (fTgtPDG t)); bool_cases; cbn; repeat split; reflexivity || lia.
Qed.

(** X10. [IsEvenEven], [IsEvenOdd] and [IsOddOdd] are pairwise exclusive
    and exactly one of them holds of a nucleus, none of any other target,
    whatever the members hold. For 0 <= Z <= A below 2^31 they are the parities
    of Z and A: even-even is Z and A even, odd-odd is Z odd and A even,
    even-odd is A odd. *)
Theorem parity_classes_partition_nuclei (P : Type) (t : TargetOf P) :
  (IsEvenEven t || IsEvenOdd t || IsOddOdd t = IsNucleus t) /\
  IsEvenEven t && IsEvenOdd t = false /\
  IsEvenEven t && IsOddOdd t = false /\
  IsEvenOdd t && IsOddOdd t = false /\
  (0 <= fZ t <= fA t -> fA t < 2 ^ 31 ->
   IsEvenEven t = IsNucleus t && Z.even (fZ t) && Z.even (fA t) /\
   IsOddOdd t = IsNucleus t && Z.odd (fZ t) && Z.even (fA t) /\
   IsEvenOdd t = IsNucleus t && Z.odd (fA t)).
Proof.
  assert (Hparts : forall N Z : Z, ((Z.rem N 2 =? 0) && (Z.rem Z 2 =? 0)) &&
                                   ((Z.rem N 2 =? 1) && (Z.rem Z 2 =? 1)) = false).
  { intros N Z. destruct (Z.eqb_spec (Z.rem N 2) 0) as [HN|HN]; [|reflexivity].
    rewrite HN. rewrite andb_false_r. reflexivity. }
  unfold IsEvenOdd, IsEvenEven, IsOddOdd.
  destruct (IsNucleus t) eqn:Hnucleus; [|repeat split; intros; reflexivity].
  specialize (Hparts (N_ t) (Z_ t)).
  set (ee := (Z.rem (N_ t) 2 =? 0) && (Z.rem (Z_ t) 2 =? 0)) in *.
  set (oo := (Z.rem (N_ t) 2 =? 1) && (Z.rem (Z_ t) 2 =? 1)) in *.
  split; [destruct ee, oo; reflexivity || discriminate|].
  split; [destruct ee, oo; reflexivity || discriminate|].
  split; [destruct ee, oo; reflexivity || discriminate|].
  split; [destruct ee, oo; reflexivity || discriminate|].
  intros HZ HA. clear Hparts. unfold ee, oo. clear ee oo. unfold N_, Z_, int_wrap.
  assert (HN : ((fA t - fZ t + 2 ^ 31) mod 2 ^ 32 - 2 ^ 31) = fA t - fZ t).
  { rewrite Z.mod_small; lia. }
  rewrite HN. rewrite !Z.rem_mod_nonneg by lia.
  rewrite (Zmod_odd (fA t - fZ t)), (Zmod_odd (fZ t)).
  replace (Z.odd (fA t - fZ t)) with (xorb (Z.odd (fA t)) (Z.odd (fZ t))).
  2:{ rewrite Z.odd_sub. reflexivity. }
  rewrite <- !Z.negb_odd. cbn [andb].
  destruct (Z.odd (fA t)), (Z.odd (fZ t)); cbn; repeat split; reflexivity.
Qed.

(** X4. [SetZA] never changes the target code, the struck quark or its sea
    flag; unless it leaves a free nucleon it changes neither the struck nucleon
    nor the four-momentum nor the memory. It can fail only for A = 1 and Z in
    {0, 1}, in the setting of the struck nucleon. *)
Theorem SetZA_leaves_the_rest (e : Env) (Z A : Z) :
  match SetZA Z A e with
  | Ok (_, e') =>
      fTgtPDG (this e') = fTgtPDG (this e) /\
      fStruckQuarkPDG (this e') = fStruckQuarkPDG (this e) /\
      fStruckSeaQuark (this e') = fStruckSeaQuark (this e) /\
      (IsFreeNucleon (this e') = false ->
       fStruckNucPDG (this e') = fStruckNucPDG (this e) /\
       fStruckNucP4 (this e') = fStruckNucP4 (this e) /\
       mem e' = mem e)
  | Crash f =>
      (f = NullDereference \/ f = InvalidDelete) /\ A = 1 /\ (Z = 0 \/ Z = 1)
  end.
Proof.
  rewrite SetZA_explicit. cbv zeta.
  set (t0 := with_fA A (with_fZ Z (this e))).
  destruct (IsValidNucleus t0) eqn:Hvalid; cbn [this].
  - destruct (IsFreeNucleon t0) eqn:Hfree.
    + pose proof (proj1 (IsFreeNucleon_true _ t0) Hfree) as HZA. cbn in HZA.
      assert (Hrun : forall c, pdg.IsNeutronOrProton c = true ->
                match SetStruckNucleonPDGCode c (mkEnv t0 (mem e) (log e)) with
                | Ok (_, e') =>
                    fTgtPDG (this e') = fTgtPDG (this e) /\
                    fStruckQuarkPDG (this e') = fStruckQuarkPDG (this e) /\
                    fStruckSeaQuark (this e') = fStruckSeaQuark (this e) /\
                    (IsFreeNucleon (this e') = false ->
                     fStruckNucPDG (this e') = fStruckNucPDG (this e) /\
                     fStruckNucP4 (this e') = fStruckNucP4 (this e) /\
                     mem e' = mem e)
                | Crash f =>
                    (f = NullDereference \/ f = InvalidDelete) /\ A = 1 /\ (Z = 0 \/ Z = 1)
                end).
      { intros c Hc. rewrite (SetStruckNucleonPDGCode_explicit _ c Hc). cbv zeta.
        cbn [this mem log].
        destruct (Find c); [|tauto].
        assert (Hstill : forall p lg m,
                  IsFreeNucleon (this (mkEnv (with_fStruckNucP4 p (with_fStruckNucPDG c t0)) m lg))
                  = false -> False).
        { intros p lg m Hno. unfold IsFreeNucleon in Hno, Hfree. cbn in Hno, Hfree.
          rewrite Hfree in Hno. discriminate. }
        destruct (fStruckNucP4 t0) as [old|].
        - destruct (deref (mem e) old); [|tauto].
          do 3 (split; [reflexivity|]). intros Hno. exfalso. eapply Hstill. exact Hno.
        - do 3 (split; [reflexivity|]). intros Hno. exfalso. eapply Hstill. exact Hno. }
      destruct (IsProton t0); apply Hrun; reflexivity.
    + cbn. repeat split.
  - cbn [IsFreeNucleon fA fZ with_fA with_fZ]. cbn. repeat split.
Qed.

Lemma observe_replaced (t : Target) (m : Store TLorentzVector) (p : loc)
    (p4 : TLorentzVector) lg :
  observe (mkEnv (with_fStruckNucP4 (Some (length m)) t) (<[p := None]> m ++ [Some p4]) lg) =
    with_fStruckNucP4 (Some p4) t.
Proof.
  rewrite <- (length_insert m p None) at 1. apply observe_fresh.
Qed.

Lemma outcome_nucleon_live (c : Z) (e : Env) particle p v :
  pdg.IsNeutronOrProton c = true ->
  Find c = Some particle ->
  fStruckNucP4 (this e) = Some p -> deref (mem e) p = Some v ->
  outcome (SetStruckNucleonPDGCode c e) =
    Ok (with_fStruckNucP4 (Some (mkP4 d0 d0 d0 (Mass particle)))
                          (with_fStruckNucPDG c (this e))).
Proof.
  intros Hc Hf Hp Hv.
  destruct (SetStruckNucleonPDGCode_live c e particle p v Hc Hf Hp Hv)
    as (e1 & Hrun & _ & _ & _ & _ & Hobs).
  rewrite Hrun. cbn. rewrite Hobs. reflexivity.
Qed.

(** X3. [SetZA] is idempotent: calling it twice with the same (Z, A)
    leaves the same target to be observed as calling it once, and fails exactly
    when the single call fails. *)
Theorem SetZA_twice (e : Env) (Z A : Z) :
  outcome ((SetZA Z A ;; SetZA Z A) e) = outcome (SetZA Z A e).
Proof.
  unfold bind at 1. unfold res_bind.
  rewrite (SetZA_explicit e). cbv zeta.
  set (t0 := with_fA A (with_fZ Z (this e))).
  set (warn := mkLog "Target" pWARN "Invalid target -- Reseting to Z = 0, A = 0").
  destruct (IsValidNucleus t0) eqn:Hvalid; cbn [this].
  - destruct (IsFreeNucleon t0) eqn:Hfree.
    + assert (Hrun : forall c,
                 pdg.IsNeutronOrProton c = true ->
                 c = (if IsProton t0 then pdg.kPdgProton else pdg.kPdgNeutron) ->
                 outcome match SetStruckNucleonPDGCode c (mkEnv t0 (mem e) (log e)) with
                         | Ok (_, s') => SetZA Z A s'
                         | Crash f => Crash f
                         end
                 = outcome (SetStruckNucleonPDGCode c (mkEnv t0 (mem e) (log e)))).
      { intros c Hc Hcode. rewrite (SetStruckNucleonPDGCode_explicit _ c Hc). cbv zeta.
        cbn [this mem log].
        destruct (Find c) as [particle|] eqn:Hf; [|reflexivity].
        assert (Hsecond : forall m lg,
                   length m = length (mem e) ->
                   outcome (SetZA Z A
                      (mkEnv (with_fStruckNucP4 (Some (length (mem e))) (with_fStruckNucPDG c t0))
                             (m ++ [Some (mkP4 d0 d0 d0 (Mass particle))]) lg))
                   = Ok (with_fStruckNucP4 (Some (mkP4 d0 d0 d0 (Mass particle)))
                                           (with_fStruckNucPDG c t0))).
        { intros m lg Hlen. rewrite SetZA_explicit. cbv zeta. cbn [this mem log].
          change (with_fA A (with_fZ Z (with_fStruckNucP4
                   (Some (length (mem e))) (with_fStruckNucPDG c t0))))
            with (with_fStruckNucP4 (Some (length (mem e))) (with_fStruckNucPDG c t0)).
          rewrite (IsValidNucleus_members _ _ _ t0) by reflexivity. rewrite Hvalid.
          cbn [this].
          change (IsFreeNucleon (with_fStruckNucP4 (Some (length (mem e)))
                                   (with_fStruckNucPDG c t0))) with (IsFreeNucleon t0).
          change (IsProton (with_fStruckNucP4 (Some (length (mem e)))
                              (with_fStruckNucPDG c t0))) with (IsProton t0).
          rewrite Hfree.
          assert (Hagain : outcome (SetStruckNucleonPDGCode c
                     (mkEnv (with_fStruckNucP4 (Some (length (mem e))) (with_fStruckNucPDG c t0))
                            (m ++ [Some (mkP4 d0 d0 d0 (Mass particle))]) lg))
                   = Ok (with_fStruckNucP4 (Some (mkP4 d0 d0 d0 (Mass particle)))
                                           (with_fStruckNucPDG c t0))).
          { erewrite outcome_nucleon_live; [reflexivity | exact Hc | exact Hf | reflexivity |].
            cbn [mem]. rewrite <- Hlen. apply deref_alloc_fresh. }
          destruct (IsProton t0); rewrite <- Hcode; exact Hagain. }
        destruct (fStruckNucP4 t0) as [old|].
        - destruct (deref (mem e) old); [|reflexivity].
          rewrite Hsecond by apply length_insert.
          cbn [outcome res_bind].
          rewrite <- (length_insert (mem e) old None) at 1. rewrite observe_fresh. reflexivity.
        - rewrite Hsecond by reflexivity.
          cbn [outcome res_bind]. rewrite observe_fresh. reflexivity. }
      destruct (IsProton t0) eqn:Hproton; apply Hrun; reflexivity.
    + rewrite SetZA_explicit. cbv zeta. cbn [this mem log].
      change (with_fA A (with_fZ Z t0)) with t0.
      rewrite Hvalid. cbn [this]. rewrite Hfree. reflexivity.
  - assert (Hno : IsFreeNucleon (with_fA 0 (with_fZ 0 t0)) = false) by reflexivity.
    rewrite Hno. rewrite SetZA_explicit. cbv zeta. cbn [this mem log].
    change (with_fA A (with_fZ Z (with_fA 0 (with_fZ 0 t0)))) with t0.
    rewrite Hvalid. cbn [this]. rewrite Hno. reflexivity.
Qed.

Lemma SetStruckNucleonPDGCode_crash_owned (e : Env) (c : Z) (f : Fault) :
  owns_p4 (mem e) (this e) = true ->
  SetStruckNucleonPDGCode c e = Crash f ->
  f = NullDereference /\ pdg.IsNeutronOrProton c = true /\ Find c = None.
Proof.
  intros Hown Hrun. apply owns_p4_true in Hown. destruct Hown as (p & v & Hp & Hv).
  destruct (pdg.IsNeutronOrProton c) eqn:Hc.
  - rewrite (SetStruckNucleonPDGCode_explicit e c Hc) in Hrun. cbv zeta in Hrun.
    rewrite Hp, Hv in Hrun. destruct (Find c); [discriminate|].
    injection Hrun as <-. repeat split.
  - rewrite (SetStruckNucleonPDGCode_invalid e c Hc) in Hrun. discriminate.
Qed.

Lemma SetZA_crash_owned (e : Env) (Z A : Z) (f : Fault) :
  owns_p4 (mem e) (this e) = true ->
  SetZA Z A e = Crash f ->
  f = NullDereference /\ A = 1 /\
  ((Z = 1 /\ Find pdg.kPdgProton = None) \/ (Z = 0 /\ Find pdg.kPdgNeutron = None)).
Proof.
  intros Hown Hrun. rewrite SetZA_explicit in Hrun. cbv zeta in Hrun.
  set (t0 := with_fA A (with_fZ Z (this e))) in Hrun.
  destruct (IsValidNucleus t0); cbn [this] in Hrun.
  - destruct (IsFreeNucleon t0) eqn:Hfree; [|discriminate].
    apply IsFreeNucleon_true in Hfree. cbn in Hfree. destruct Hfree as [HA HZ].
    destruct (IsProton t0) eqn:Hproton.
    + apply SetStruckNucleonPDGCode_crash_owned in Hrun; [|exact Hown].
      destruct Hrun as (-> & _ & Hfind). unfold IsProton in Hproton. cbn in Hproton.
      apply andb_true_iff in Hproton. destruct Hproton as [_ HZ1]. apply Z.eqb_eq in HZ1.
      auto.
    + apply SetStruckNucleonPDGCode_crash_owned in Hrun; [|exact Hown].
      destruct Hrun as (-> & _ & Hfind). unfold IsProton in Hproton. cbn in Hproton.
      apply andb_false_iff in Hproton.
      destruct Hproton as [HA1 | HZ1]; [apply Z.eqb_neq in HA1; contradiction|].
      apply Z.eqb_neq in HZ1. destruct HZ as [HZ | HZ]; [auto | contradiction].
  - discriminate.
Qed.

(** X1. The default constructor always succeeds and establishes the class
    invariant (a valid or empty nucleus, a struck nucleon that is unset, proton
    or neutron, and a live four-momentum of its own). The constructor from
    (Z, A) establishes it whenever it returns, and fails only for a free
    nucleon that the particle table does not hold. *)
Theorem constructors_establish_the_invariant (e : Env) (Z A : Z) :
  (exists e', Target_ e = Ok (tt, e') /\ invariant (mem e') (this e') = true) /\
  match Target_ZA Z A e with
  | Ok (_, e') => invariant (mem e') (this e') = true
  | Crash f =>
      f = NullDereference /\ A = 1 /\
      ((Z = 1 /\ Find pdg.kPdgProton = None) \/ (Z = 0 /\ Find pdg.kPdgNeutron = None))
  end.
Proof.
  split.
  - eexists. split; [apply Init_spec|]. eapply Target_default_establishes. apply Init_spec.
  - destruct (Target_ZA Z A e) as [[[] e']|f] eqn:Hrun.
    + eapply Target_ZA_establishes. exact Hrun.
    + unfold Target_ZA in Hrun.
      unfold bind at 1 in Hrun. rewrite Init_spec in Hrun. cbn [res_bind] in Hrun.
      unfold bind at 1 in Hrun. cbn [modify_this res_bind this mem log] in Hrun.
      eapply SetZA_crash_owned; [|exact Hrun]. apply owns_p4_fresh. reflexivity.
Qed.

(** X2. Every setter keeps the class invariant: [SetStruckNucleonP4],
    [SetStruckQuarkPDGCode] and [SetStruckSeaQuark] always succeed on a target
    that satisfies it; [SetZA] and [SetStruckNucleonPDGCode] keep it whenever
    they return and fail only by the null pointer of a missing table entry,
    never by a double delete. *)
Theorem mutators_keep_the_invariant (e : Env) :
  invariant (mem e) (this e) = true ->
  (forall Z A,
     match SetZA Z A e with
     | Ok (_, e') => invariant (mem e') (this e') = true
     | Crash f => f = NullDereference
     end) /\
  (forall c,
     match SetStruckNucleonPDGCode c e with
     | Ok (_, e') => invariant (mem e') (this e') = true
     | Crash f => f = NullDereference
     end) /\
  (forall p4, exists e',
     SetStruckNucleonP4 p4 e = Ok (tt, e') /\ invariant (mem e') (this e') = true) /\
  (forall pdgc, exists e',
     SetStruckQuarkPDGCode pdgc e = Ok (tt, e') /\ invariant (mem e') (this e') = true) /\
  (forall tf, exists e',
     SetStruckSeaQuark tf e = Ok (tt, e') /\ invariant (mem e') (this e') = true).
Proof.
  intros Hinv. pose proof (proj1 (invariant_true _ _) Hinv) as (_ & _ & Hown).
  split; [|split; [|split; [|split]]].
  - intros Z A. destruct (SetZA Z A e) as [[[] e']|f] eqn:Hrun.
    + eapply SetZA_keeps; eauto.
    + eapply SetZA_crash_owned; eauto.
  - intros c. destruct (SetStruckNucleonPDGCode c e) as [[[] e']|f] eqn:Hrun.
    + eapply SetStruckNucleonPDGCode_keeps; eauto.
    + eapply SetStruckNucleonPDGCode_crash_owned; eauto.
  - intros p4. apply owns_p4_true in Hown. destruct Hown as (p & v & Hp & Hv).
    eexists. split; [exact (SetStruckNucleonP4_owned e p4 p v Hp Hv)|].
    eapply SetStruckNucleonP4_keeps; [exact Hinv|].
    exact (SetStruckNucleonP4_owned e p4 p v Hp Hv).
  - intros pdgc. destruct (SetStruckQuarkPDGCode pdgc e) as [[[] e']|f] eqn:Hrun.
    + exists e'. split; [reflexivity|]. eapply SetStruckQuarkPDGCode_keeps; eauto.
    + unfold SetStruckQuarkPDGCode in Hrun. destruct (_ || _); discriminate.
  - intros tf. eexists. split; [reflexivity|].
    eapply SetStruckSeaQuark_keeps; [exact Hinv | reflexivity].
Qed.

(** X13. The constructor from (Z, A, struck nucleon) establishes the
    invariant; the target code is the ion code of (A, Z) as given, even when
    (Z, A) is no valid nucleus and is reset to (0, 0); a proton or neutron code
    is taken with its mass at rest, any other code leaves the struck nucleon
    unset with the default four-momentum. It fails only for a nucleon code that
    the table does not hold. *)
Theorem three_argument_constructor_takes_the_nucleon (e : Env) (Z A c : Z) :
  match Target_ZA_nucleon Z A c e with
  | Ok (_, e') =>
      invariant (mem e') (this e') = true /\
      PDGCode (this e') = IonPdgCode A Z /\
      (Z_ (this e'), A_ (this e')) =
        (if IsValidNucleus (with_fA A (with_fZ Z (this e))) then (Z, A) else (0, 0)) /\
      StruckNucleonPDGCode (this e') = (if pdg.IsNeutronOrProton c then c else 0) /\
      fStruckNucP4 (observe e') =
        Some (mkP4 d0 d0 d0
                (if pdg.IsNeutronOrProton c
                 then match Find c with Some particle => Mass particle | None => d0 end
                 else kNucleonMass))
  | Crash f => f = NullDereference /\ pdg.IsNeutronOrProton c = true /\ Find c = None
  end.
Proof.
  destruct (Target_ZA_nucleon Z A c e) as [[[] e']|f] eqn:Hrun.
  - split; [eapply Target_ZA_nucleon_establishes; exact Hrun|].
    unfold Target_ZA_nucleon in Hrun.
    unfold bind at 1 in Hrun. rewrite Init_spec in Hrun. cbn [res_bind] in Hrun.
    do 3 (unfold bind at 1 in Hrun; cbn [modify_this res_bind this mem log] in Hrun).
    unfold bind at 1 in Hrun. rewrite ForceNucleusValidity_explicit in Hrun.
    cbn [res_bind this mem log] in Hrun.
    rewrite (IsValidNucleus_members _ _ _ (with_fA A (with_fZ Z (this e)))) in Hrun
      by reflexivity.
    destruct (IsValidNucleus (with_fA A (with_fZ Z (this e)))).
    + destruct (pdg.IsNeutronOrProton c) eqn:Hc.
      * rewrite (SetStruckNucleonPDGCode_explicit _ c Hc) in Hrun. cbv zeta in Hrun.
        cbn [this mem log fStruckNucP4 with_fTgtPDG with_fA with_fZ] in Hrun.
        destruct (Find c); [|discriminate].
        rewrite deref_alloc_fresh in Hrun. injection Hrun as <-.
        rewrite observe_replaced. repeat split.
      * rewrite (SetStruckNucleonPDGCode_invalid _ c Hc) in Hrun. injection Hrun as <-.
        unfold observe, resolve. cbn. rewrite deref_alloc_fresh. repeat split.
    + destruct (pdg.IsNeutronOrProton c) eqn:Hc.
      * rewrite (SetStruckNucleonPDGCode_explicit _ c Hc) in Hrun. cbv zeta in Hrun.
        cbn [this mem log fStruckNucP4 with_fTgtPDG with_fA with_fZ] in Hrun.
        destruct (Find c); [|discriminate].
        rewrite deref_alloc_fresh in Hrun. injection Hrun as <-.
        rewrite observe_replaced. repeat split.
      * rewrite (SetStruckNucleonPDGCode_invalid _ c Hc) in Hrun. injection Hrun as <-.
        unfold observe, resolve. cbn. rewrite deref_alloc_fresh. repeat split.
  - unfold Target_ZA_nucleon in Hrun.
    unfold bind at 1 in Hrun. rewrite Init_spec in Hrun. cbn [res_bind] in Hrun.
    do 3 (unfold bind at 1 in Hrun; cbn [modify_this res_bind this mem log] in Hrun).
    unfold bind at 1 in Hrun. rewrite ForceNucleusValidity_explicit in Hrun.
    cbn [res_bind] in Hrun.
    eapply SetStruckNucleonPDGCode_crash_owned; [|exact Hrun].
    destruct (IsValidNucleus _); cbn [this mem]; apply owns_p4_fresh; reflexivity.
Qed.

Lemma sole_owner_owns before e : sole_owner before e -> owns_p4 (mem e) (this e) = true.
Proof.
  intros (p & Hp & _ & [v Hv] & _). apply owns_p4_true. eauto.
Qed.

Lemma Init_sole_owner (e : Env) :
  exists e', Init e = Ok (tt, e') /\ sole_owner (mem e) e'.
Proof.
  eexists. split; [apply Init_spec|]. exists (length (mem e)). cbn [this mem fStruckNucP4].
  split; [reflexivity|]. split; [lia|]. split; [rewrite deref_alloc_fresh; eauto|]. split.
  - intros l Hge Hne. unfold deref. rewrite lookup_ge_None_2; [reflexivity|].
    rewrite length_app. cbn. lia.
  - intros l Hlt. apply lookup_app_l. exact Hlt.
Qed.

Lemma SetStruckNucleonP4_sole_owner before (e : Env) (p4 : TLorentzVector) :
  sole_owner before e ->
  exists e', SetStruckNucleonP4 p4 e = Ok (tt, e') /\ sole_owner before e' /\
             this e' = with_fStruckNucP4 (fStruckNucP4 (this e')) (this e).
Proof.
  intros (p & Hp & Hge & [v Hv] & Hdead & Hold).
  pose proof (deref_Some_lt _ _ _ Hv) as Hlt.
  rewrite (SetStruckNucleonP4_owned e p4 p v Hp Hv). eexists. split; [reflexivity|].
  split; [|reflexivity].
  exists (length (mem e)). cbn [this mem fStruckNucP4 with_fStruckNucP4].
  split; [reflexivity|]. split; [lia|]. split.
  { rewrite <- (length_insert (mem e) p None) at 1. rewrite deref_alloc_fresh. eauto. }
  split.
  - intros l Hl Hne. destruct (decide (l < length (mem e))%nat) as [Hin|Hout].
    + rewrite deref_alloc_old by (rewrite length_insert; exact Hin).
      destruct (decide (l = p)) as [->|Hlp]; [apply deref_freed|].
      rewrite deref_update_ne by congruence. apply Hdead; assumption.
    + unfold deref. rewrite lookup_ge_None_2; [reflexivity|].
      rewrite length_app, length_insert. cbn. lia.
  - intros l Hl. rewrite lookup_app_l by (rewrite length_insert; lia).
    rewrite list_lookup_insert_ne by lia. apply Hold. exact Hl.
Qed.

Lemma SetStruckNucleonPDGCode_sole_owner before (e : Env) (c : Z) :
  sole_owner before e ->
  match SetStruckNucleonPDGCode c e with
  | Ok (_, e') => sole_owner before e'
  | Crash f => f = NullDereference
  end.
Proof.
  intros Hsole. destruct (pdg.IsNeutronOrProton c) eqn:Hc.
  - rewrite (SetStruckNucleonPDGCode_valid e c Hc). destruct (Find c); [|reflexivity].
    destruct (SetStruckNucleonP4_sole_owner before
                (mkEnv (with_fStruckNucPDG c (this e)) (mem e) (log e))
                (mkP4 d0 d0 d0 (Mass t))) as (e' & -> & Hsole' & _); [|exact Hsole'].
    destruct Hsole as (p & Hp & Hrest). exists p. split; [exact Hp | exact Hrest].
  - rewrite (SetStruckNucleonPDGCode_invalid e c Hc).
    destruct Hsole as (p & Hp & Hrest). exists p. split; [exact Hp | exact Hrest].
Qed.

Lemma SetZA_sole_owner before (e : Env) (Z A : Z) :
  sole_owner before e ->
  match SetZA Z A e with
  | Ok (_, e') => sole_owner before e'
  | Crash f => f = NullDereference
  end.
Proof.
  intros Hsole. rewrite SetZA_explicit. cbv zeta.
  set (t0 := with_fA A (with_fZ Z (this e))).
  assert (Hsole1 : forall t lg, fStruckNucP4 t = fStruckNucP4 (this e) ->
                                sole_owner before (mkEnv t (mem e) lg)).
  { intros t lg Ht. destruct Hsole as (p & Hp & Hrest). exists p. cbn [this mem].
    split; [congruence | exact Hrest]. }
  destruct (IsValidNucleus t0); cbn [this].
  - destruct (IsFreeNucleon t0); [|apply Hsole1; reflexivity].
    destruct (IsProton t0); apply SetStruckNucleonPDGCode_sole_owner, Hsole1; reflexivity.
  - cbn. apply Hsole1. reflexivity.
Qed.

Lemma Target_dtor_sole_owner before (e : Env) :
  sole_owner before e ->
  exists e', Target_dtor e = Ok (tt, e') /\
    (forall l, (length before <= l)%nat -> deref (mem e') l = None) /\
    (forall l, (l < length before)%nat -> mem e' !! l = before !! l).
Proof.
  intros (p & Hp & Hge & [v Hv] & Hdead & Hold).
  unfold Target_dtor, bind, get_this, res_bind, delete, free. cbn. rewrite Hp. cbn.
  rewrite Hv. cbn. eexists. split; [reflexivity|]. cbn [mem]. split.
  - intros l Hl. destruct (decide (l = p)) as [->|Hne]; [apply deref_freed|].
    rewrite deref_update_ne by congruence. apply Hdead; assumption.
  - intros l Hl. rewrite list_lookup_insert_ne by lia. apply Hold. exact Hl.
Qed.

(** X8. Construction followed by destruction leaves no cell behind: after
    any of the three constructors and the destructor every cell allocated since
    is freed and the memory of before is as it was. The only failure on the way
    is the null pointer of a missing table entry. *)
Theorem destructor_frees_what_the_constructor_allocated (e : Env) (Z A c : Z) :
  released (mem e) ((Target_ ;; Target_dtor) e) /\
  released (mem e) ((Target_ZA Z A ;; Target_dtor) e) /\
  released (mem e) ((Target_ZA_nucleon Z A c ;; Target_dtor) e).
Proof.
  destruct (Init_sole_owner e) as (e0 & Hinit & Hsole0).
  assert (Hend : forall r : Res (unit * Env),
             match r with Ok (_, e') => sole_owner (mem e) e' | Crash f => f = NullDereference end ->
             released (mem e) (res_bind r (fun '(_, e') => Target_dtor e'))).
  { intros [[[] e']|f] Hr; cbn [res_bind]; [|exact Hr].
    destruct (Target_dtor_sole_owner (mem e) e' Hr) as (e'' & -> & Hfreed). exact Hfreed. }
  split; [|split].
  - unfold bind. unfold Target_. apply Hend. rewrite Hinit. exact Hsole0.
  - unfold bind at 1. apply Hend. unfold Target_ZA.
    unfold bind at 1. rewrite Hinit. cbn [res_bind].
    unfold bind at 1. cbn [modify_this res_bind].
    apply SetZA_sole_owner.
    destruct Hsole0 as (p & Hp & Hrest). exists p. cbn [this mem]. split; [exact Hp | exact Hrest].
  - unfold bind at 1. apply Hend. unfold Target_ZA_nucleon.
    unfold bind at 1. rewrite Hinit. cbn [res_bind].
    do 3 (unfold bind at 1; cbn [modify_this res_bind this mem log]).
    unfold bind at 1. rewrite ForceNucleusValidity_explicit. cbn [res_bind].
    apply SetStruckNucleonPDGCode_sole_owner.
    destruct Hsole0 as (p & Hp & Hrest).
    destruct (IsValidNucleus _); exists p; cbn [this mem]; (split; [exact Hp | exact Hrest]).
Qed.

(** X7. [Copy] of an ion leaks: it allocates the four-momentum of [Init]
    and then overwrites the pointer with a copy of the source's, without a
    delete. The cell of [Init] is live after the copy and still live after the
    destructor, which frees the copy only. *)
Theorem Copy_leaks_the_cell_of_Init (e : Env) (tgt : Target) :
  invariant (mem e) tgt = true ->
  IsIon (fTgtPDG tgt) = true ->
  exists e1 e2 p,
    Copy tgt e = Ok (tt, e1) /\
    Target_dtor e1 = Ok (tt, e2) /\
    fStruckNucP4 (this e1) = Some p /\
    p <> length (mem e) /\
    deref (mem e1) (length (mem e)) = Some (mkP4 d0 d0 d0 kNucleonMass) /\
    deref (mem e2) (length (mem e)) = Some (mkP4 d0 d0 d0 kNucleonMass) /\
    deref (mem e2) p = None.
Proof.
  intros Hinv Hion. apply invariant_true in Hinv. destruct Hinv as (Hnucleus & Hnucleon & Hown).
  apply owns_p4_true in Hown. destruct Hown as (q & v & Hq & Hv).
  destruct (Copy_run e tgt q v Hnucleus Hnucleon Hq Hv) as (lg & Hrun).
  rewrite Hion in Hrun. cbv zeta in Hrun. rewrite Hrun.
  set (initial := Some (mkP4 d0 d0 d0 kNucleonMass)).
  eexists _, _, (length (mem e ++ [initial])).
  split; [reflexivity|].
  assert (Hlive : deref ((mem e ++ [initial]) ++ [Some v]) (length (mem e ++ [initial]))
                  = Some v) by apply deref_alloc_fresh.
  split.
  { unfold Target_dtor, bind, get_this, res_bind, delete, free. cbn [this mem log fStruckNucP4
      with_fStruckNucP4]. rewrite Hlive. reflexivity. }
  cbn [this mem fStruckNucP4 with_fStruckNucP4].
  split; [reflexivity|]. split; [rewrite length_app; cbn; lia|].
  assert (Hcell : deref ((mem e ++ [initial]) ++ [Some v]) (length (mem e))
                  = Some (mkP4 d0 d0 d0 kNucleonMass)).
  { rewrite deref_alloc_old by (rewrite length_app; cbn; lia). apply deref_alloc_fresh. }
  split; [exact Hcell|]. split.
  - rewrite deref_update_ne by (rewrite length_app; cbn; lia). exact Hcell.
  - apply deref_freed.
Qed.

(** X12. The copy of a copy is observed as the copy, which it leaves as it
    was; the two hold distinct four-momentum cells. *)
Theorem copy_of_a_copy (e : Env) (tgt raw : Target) :
  invariant (mem e) tgt = true ->
  exists e1 e2 p1 p2,
    Target_copy tgt e = Ok (tt, e1) /\
    Target_copy (this e1) (mkEnv raw (mem e1) (log e1)) = Ok (tt, e2) /\
    observe e2 = observe e1 /\
    resolve (mem e2) (this e1) = observe e1 /\
    fStruckNucP4 (this e1) = Some p1 /\ fStruckNucP4 (this e2) = Some p2 /\ p1 <> p2.
Proof.
  intros Hinv.
  pose proof (proj1 (invariant_true _ _) Hinv) as (Hnucleus & Hnucleon & Hown).
  apply owns_p4_true in Hown. destruct Hown as (q & v & Hq & Hv).
  destruct (Copy_run e tgt q v Hnucleus Hnucleon Hq Hv) as (lg & Hrun).
  cbv zeta in Hrun.
  set (initial := Some (mkP4 d0 d0 d0 kNucleonMass)) in *.
  set (e1 := if IsIon (fTgtPDG tgt) then _ else _) in Hrun.
  assert (Hinv1 : invariant (mem e1) (this e1) = true).
  { eapply (Target_copy_establishes tgt e e1 Hinv). unfold Target_copy. exact Hrun. }
  assert (Hpdg : fTgtPDG (this e1) = fTgtPDG tgt).
  { unfold e1. destruct (IsIon (fTgtPDG tgt)); reflexivity. }
  pose proof (proj1 (invariant_true _ _) Hinv1) as (Hnucleus1 & Hnucleon1 & Hown1).
  apply owns_p4_true in Hown1. destruct Hown1 as (p1 & v1 & Hp1 & Hv1).
  pose proof (deref_Some_lt _ _ _ Hv1) as Hlt1.
  destruct (Copy_run (mkEnv raw (mem e1) (log e1)) (this e1) p1 v1 Hnucleus1 Hnucleon1 Hp1 Hv1)
    as (lg2 & Hrun2).
  cbv zeta in Hrun2. cbn [mem] in Hrun2. fold initial in Hrun2. rewrite Hpdg in Hrun2.
  assert (Hobs1 : observe e1 = with_fStruckNucP4 (Some v1) (this e1)).
  { unfold observe, resolve. rewrite Hp1, Hv1. reflexivity. }
  assert (Hdefault : IsIon (fTgtPDG tgt) = false ->
                     this e1 = mkTarget 0 0 (fTgtPDG tgt) 0 0 false (Some (length (mem e)))
                     /\ v1 = mkP4 d0 d0 d0 kNucleonMass).
  { intros Hion. unfold e1 in *. rewrite Hion in *. cbn [this mem] in *.
    split; [reflexivity|]. cbn in Hp1. injection Hp1 as <-.
    unfold initial in Hv1. rewrite deref_alloc_fresh in Hv1. injection Hv1 as <-. reflexivity. }
  exists e1. unfold Target_copy. rewrite Hrun2.
  destruct (IsIon (fTgtPDG tgt)) eqn:Hion.
  - eexists _, p1, _. split; [exact Hrun|]. split; [reflexivity|].
    cbn [this mem fStruckNucP4 with_fStruckNucP4].
    split; [|split; [|split; [exact Hp1|split; [reflexivity|]]]].
    + rewrite Hobs1. unfold observe, resolve. cbn [this mem fStruckNucP4 with_fStruckNucP4].
      rewrite deref_alloc_fresh. destruct (this e1); reflexivity.
    + rewrite Hobs1. unfold resolve. rewrite Hp1.
      rewrite !deref_alloc_old by (rewrite ?length_app; cbn [length]; lia). rewrite Hv1. reflexivity.
    + rewrite length_app. cbn [length]. lia.
  - destruct (Hdefault eq_refl) as [Hthis ->].
    eexists _, p1, _. split; [exact Hrun|]. split; [reflexivity|].
    cbn [this mem fStruckNucP4 with_fStruckNucP4].
    split; [|split; [|split; [exact Hp1|split; [reflexivity|]]]].
    + rewrite Hobs1. unfold observe, resolve. cbn [this mem fStruckNucP4 with_fStruckNucP4].
      unfold initial. rewrite deref_alloc_fresh. rewrite Hthis. reflexivity.
    + rewrite Hobs1. unfold resolve. rewrite Hp1.
      rewrite !deref_alloc_old by (rewrite ?length_app; cbn [length]; lia). rewrite Hv1. reflexivity.
    + lia.
Qed.

(** X11. After [SetStruckNucleonPDGCode] with a proton or neutron code of
    the table, on a target that owns its four-momentum, [StruckNucleonMass]
    returns the energy of the struck nucleon's four-momentum, which is at rest
    and on the mass shell. *)
Theorem struck_nucleon_mass_is_the_energy_at_rest (e : Env) (c : Z) (particle : TParticlePDG double) :
  pdg.IsNeutronOrProton c = true ->
  Find c = Some particle ->
  owns_p4 (mem e) (this e) = true ->
  exists e' p4,
    (SetStruckNucleonPDGCode c ;; StruckNucleonMass) e = Ok (E p4, e') /\
    fStruckNucP4 (observe e') = Some p4 /\
    E p4 = Mass particle /\ Px p4 = d0 /\ Py p4 = d0 /\ Pz p4 = d0.
Proof.
  intros Hc Hf Hown. apply owns_p4_true in Hown. destruct Hown as (p & v & Hp & Hv).
  destruct (SetStruckNucleonPDGCode_live c e particle p v Hc Hf Hp Hv)
    as (e1 & Hrun & Hthis & _ & _ & _ & Hobs).
  unfold bind. rewrite Hrun. cbn [res_bind].
  assert (Hnonzero : (c =? 0) = false).
  { unfold pdg.IsNeutronOrProton, pdg.IsNeutron, pdg.IsProton in Hc.
    apply orb_true_iff in Hc. destruct Hc as [Hc | Hc]; apply Z.eqb_eq in Hc; subst c;
      reflexivity. }
  unfold StruckNucleonMass, bind, get_this, res_bind. rewrite Hthis.
  cbn [fStruckNucPDG with_fStruckNucP4 with_fStruckNucPDG]. rewrite Hnonzero, Hf.
  exists e1, (mkP4 d0 d0 d0 (Mass particle)). split; [reflexivity|].
  rewrite Hobs. repeat split.
Qed.
(** X20. On a target that satisfies the class invariant the accessors
    behave: [StruckNucleonP4] returns a live pointer and never the null pointer
    with its warning; [StruckNucleonMass] returns the table mass of the struck
    nucleon when one is set, and 0 with a warning exactly when none is set;
    neither changes the object. [StruckNucleonMass] fails only when the table
    does not hold the struck nucleon. *)
Theorem accessors_on_a_valid_target (e : Env) :
  invariant (mem e) (this e) = true ->
  (exists p v, StruckNucleonP4 e = Ok (Some p, e) /\ deref (mem e) p = Some v) /\
  match StruckNucleonMass e with
  | Ok (m, e') =>
      this e' = this e /\ mem e' = mem e /\
      if StruckNucleonIsSet (this e)
      then (exists particle,
              Find (fStruckNucPDG (this e)) = Some particle /\ m = Mass particle) /\
           log e' = log e
      else m = d0 /\
           log e' = log e ++ [mkLog "Target" pWARN "Returning struck nucleon mass = 0"]
  | Crash f =>
      f = NullDereference /\ StruckNucleonIsSet (this e) = true /\
      Find (fStruckNucPDG (this e)) = None
  end.
Proof.
  intros Hinv. apply invariant_true in Hinv. destruct Hinv as (_ & Hnucleon & Hown).
  apply owns_p4_true in Hown. destruct Hown as (p & v & Hp & Hv).
  split.
  - exists p, v. split; [|exact Hv].
    unfold StruckNucleonP4, bind, get_this, res_bind. rewrite Hp. reflexivity.
  - unfold StruckNucleonMass, bind, get_this, res_bind, StruckNucleonIsSet.
    unfold nucleon_forced in Hnucleon.
    unfold pdg.IsNeutronOrProton, pdg.IsProton, pdg.IsNeutron in *.
    destruct (Z.eqb_spec (fStruckNucPDG (this e)) 0) as [Hzero|Hset].
    + rewrite Hzero. cbn. repeat split.
    + cbn [orb] in Hnucleon.
      assert (Hcode : (fStruckNucPDG (this e) =? pdg.kPdgNeutron) ||
                      (fStruckNucPDG (this e) =? pdg.kPdgProton) = true).
      { rewrite orb_comm. exact Hnucleon. }
      rewrite Hcode.
      destruct (Find (fStruckNucPDG (this e))) as [particle|].
      * cbn. repeat split. exists particle. split; reflexivity.
      * cbn. repeat split.
Qed.
End TargetLifecycle.

(** ** The generator beyond the channel tables *)

Section GeneratorFacts.
Context `{Externals} `{RandomGen}.
Import SppChannel Interaction EVG RSPPInteractionListGenerator.
Local Open Scope Z_scope.

(** X14. For a probe that is neither a neutrino nor an anti-neutrino,
    [CreateInteractionList] returns the null pointer, whatever the
    configuration and the target; it allocates nothing, draws nothing and logs
    the initial state and a warning. *)
Theorem CreateInteractionList_unsupported_probe
    (cfg : Config) (init_state : InitialState) (w : World) :
  pdg.IsNeutrino (ProbePdg init_state) || pdg.IsAntiNeutrino (ProbePdg init_state) = false ->
  CreateInteractionList cfg init_state w =
    Ok (None,
        mkWorld (objs w) (rnd w)
                (msgs w ++
                 [mkLog "InteractionList" pINFO "InitialState = ";
                  mkLog "InteractionList" pWARN
                        "Can not handle probe! Returning NULL InteractionList for init-state: "])).
Proof.
  intros Hprobe. apply orb_false_iff in Hprobe. destruct Hprobe as [Hnu Hnubar].
  unfold CreateInteractionList, CreateInteractionList_sized.
  unfold bind at 1. cbn [LOG res_bind].
  unfold bind at 1. unfold lift at 1. unfold fill_channels. rewrite Hnu, Hnubar.
  cbn. rewrite <- app_assoc. reflexivity.
Qed.

(** X15. [AddFinalStateInfo] replaces the exclusive tag of the interaction
    and nothing else. The tag counts one nucleon when the final-state nucleon
    of the channel is the proton or the neutron and none otherwise, one pion
    when the final-state pion is a pi+, pi0 or pi- and none otherwise; an
    error is logged for each that is missing, and the call goes on. It fails
    exactly when the interaction pointer is not live. *)
Theorem AddFinalStateInfo_tags_the_final_state
    (interaction : loc) (sppchan : SppChannel_t) (w : World) :
  let nucpdg := FinStateNucleon sppchan in
  let pipdg := FinStatePion sppchan in
  let known_nucleon := (nucpdg =? pdg.kPdgProton) || (nucpdg =? pdg.kPdgNeutron) in
  let known_pion :=
    (pipdg =? pdg.kPdgPiPlus) || (pipdg =? pdg.kPdgPi0) || (pipdg =? pdg.kPdgPiMinus) in
  match AddFinalStateInfo interaction sppchan w with
  | Ok (_, w') =>
      exists i tag,
        deref (objs w) interaction = Some i /\
        objs w' = <[interaction := Some (SetExclTag tag i)]> (objs w) /\
        rnd w' = rnd w /\
        0 <= fNProtons tag /\ 0 <= fNNeutrons tag /\
        0 <= fNPiPlus tag /\ 0 <= fNPi0 tag /\ 0 <= fNPiMinus tag /\
        fNProtons tag + fNNeutrons tag = (if known_nucleon then 1 else 0) /\
        fNPiPlus tag + fNPi0 tag + fNPiMinus tag = (if known_pion then 1 else 0) /\
        msgs w' = msgs w ++
          (if known_nucleon then []
           else [mkLog "InteractionGenerator" pERROR
                       "Final state nucleon not a proton or a neutron!"]) ++
          (if known_pion then []
           else [mkLog "InteractionGenerator" pERROR "Final state pion not a pi+/pi-/pi0!"])
  | Crash f => f = NullDereference /\ deref (objs w) interaction = None
  end.
Proof.
  cbv zeta. destruct w as [st r lg0]. cbn [objs rnd msgs].
  destruct (deref st interaction) as [i|] eqn:Hi.
  - assert (Hstore : forall tag lg,
               (let* i0 := load interaction in store interaction (SetExclTag tag i0))
                 (mkWorld st r lg) =
               Ok (tt, mkWorld (<[interaction := Some (SetExclTag tag i)]> st) r lg)).
    { intros tag lg. unfold bind, load, store, assign, res_bind. cbn [objs rnd msgs].
      rewrite Hi. cbn [objs]. rewrite Hi. reflexivity. }
    destruct sppchan; unfold AddFinalStateInfo; cbn -[load store bind];
      try (unfold bind at 1 2; cbn [ret res_bind]; rewrite Hstore;
           eexists i, _; cbn [objs rnd msgs];
           do 3 (split; [reflexivity|]); cbn; rewrite ?app_nil_r;
           repeat (split; [reflexivity || lia|]); reflexivity).
    unfold bind at 1 2 3 4. cbn [ret res_bind LOG objs rnd msgs].
    rewrite Hstore. eexists i, _; cbn [objs rnd msgs].
    do 3 (split; [reflexivity|]). cbn.
    repeat (split; [reflexivity || lia|]). rewrite <- app_assoc. reflexivity.
  - assert (Hload : forall tag lg,
               (let* i0 := load interaction in store interaction (SetExclTag tag i0))
                 (mkWorld st r lg) = Crash NullDereference).
    { intros tag lg. unfold bind, load, res_bind. cbn [objs]. rewrite Hi. reflexivity. }
    destruct sppchan; unfold AddFinalStateInfo; cbn -[load store bind];
      try (unfold bind at 1 2; cbn [ret res_bind]; rewrite Hload; split; reflexivity).
    unfold bind at 1 2 3 4. cbn [ret res_bind LOG objs rnd msgs].
    rewrite Hload. split; reflexivity.
Qed.

(** X16. The loop over the channels of one current, over an array that
    holds as many cells as the loop runs, appends one fresh interaction for
    each admitted channel, in the order of the array, after the interactions
    the list already has; the k-th admitted channel is at the k-th fresh address;
    the interactions that existed are untouched and nothing is logged or
    drawn. *)
Theorem channel_loop_admits_in_order (array : string) (cfg : Config)
    (init_state : InitialState) (pp pn : TParticlePDG double)
    (channels : list SppChannel_t) (intlist : InteractionList) (w : World) :
  Find pdg.kPdgProton = Some pp ->
  Find pdg.kPdgNeutron = Some pn ->
  let admitted := List.filter (spec_admitted (TgtPtr init_state)) channels in
  exists w',
    for_loop (length channels) 0
             (add_channel array channels (spec_current cfg) init_state
                          (Target.Z_ (TgtPtr init_state) >? 0)
                          (Target.N_ (TgtPtr init_state) >? 0))
             intlist w =
      Ok (intlist ++ seq (length (objs w)) (length admitted), w') /\
    objs w' = objs w ++ map (fun ch => Some (spec_interaction cfg init_state ch)) admitted /\
    (forall k ch, admitted !! k = Some ch ->
       deref (objs w') (length (objs w) + k) = Some (spec_interaction cfg init_state ch)) /\
    (forall l, (l < length (objs w))%nat -> objs w' !! l = objs w !! l) /\
    rnd w' = rnd w /\ msgs w' = msgs w.
Proof.
  intros Hpp Hpn admitted.
  pose proof (for_loop_channels array cfg init_state pp pn channels Hpp Hpn [] intlist w)
    as Hloop.
  cbv zeta in Hloop. change ([] ++ channels) with channels in Hloop.
  change (length (@nil SppChannel_t)) with 0%nat in Hloop.
  eexists. split; [exact Hloop|]. cbn [objs rnd msgs].
  split; [reflexivity|]. split; [|split; [|split; reflexivity]].
  - intros k ch Hk. unfold deref. rewrite lookup_app_r by lia.
    replace (length (objs w) + k - length (objs w))%nat with k by lia.
    rewrite list_lookup_fmap. fold admitted. rewrite Hk. reflexivity.
  - intros l Hl. apply lookup_app_l. exact Hl.
Qed.

Lemma array_set_in {A} (name : string) (a : list A) (i : nat) (x : A) :
  (i < length a)%nat -> array_set name a i x = Ok (<[i := x]> a).
Proof. intros Hi. unfold array_set. rewrite bool_decide_eq_true_2 by exact Hi. reflexivity. Qed.

Lemma array_set_out {A} (name : string) (a : list A) (i : nat) (x : A) :
  (length a <= i)%nat -> array_set name a i x = Crash (OutOfBounds name i).
Proof.
  intros Hi. unfold array_set. rewrite bool_decide_eq_false_2 by lia. reflexivity.
Qed.

Lemma for_loop_ext {S A} (count from : nat) (body body' : nat -> A -> St S A) :
  (forall i acc s, (from <= i < from + count)%nat -> body i acc s = body' i acc s) ->
  forall acc s, for_loop count from body acc s = for_loop count from body' acc s.
Proof.
  revert from. induction count as [|count IH]; intros from Hext acc s; [reflexivity|].
  cbn [for_loop]. unfold bind. rewrite Hext by lia.
  destruct (body' from acc s) as [[acc' s']|f]; [|reflexivity]. cbn [res_bind].
  apply IH. intros i acc0 s0 Hi. apply Hext. lia.
Qed.

Lemma fill_channels_roomy (nupdg : Z) (extra : nat) :
  fill_channels nupdg (array_decl n_nucc_channels kSppNull)
                      (array_decl (n_nunc_channels + extra) kSppNull) =
    Ok (if pdg.IsNeutrino nupdg || pdg.IsAntiNeutrino nupdg
        then Some (spec_channel_table nupdg kIntWeakCC,
                   spec_channel_table nupdg kIntWeakNC ++ replicate extra kSppNull)
        else None).
Proof.
  unfold fill_channels, spec_channel_table, array_decl.
  change (replicate (n_nunc_channels + extra) kSppNull)
    with (kSppNull :: kSppNull :: kSppNull :: kSppNull :: replicate extra kSppNull).
  destruct (pdg.IsNeutrino nupdg); [|destruct (pdg.IsAntiNeutrino nupdg); [|reflexivity]].
  all: rewrite !array_set_in by (cbn; lia); cbn [res_bind];
       repeat (rewrite array_set_in by (cbn; lia); cbn [res_bind]); reflexivity.
Qed.

(** X17. For a neutrino or anti-neutrino probe, [CreateInteractionList]
    with [nunc_channels] declared with fewer than four cells ends in the first
    assignment outside the array, at the index of the declared length; with
    four cells or more the result does not depend on the declared length. *)
Theorem declared_length_of_nunc_channels (declared : nat)
    (cfg : Config) (init_state : InitialState) (w : World) :
  pdg.IsNeutrino (ProbePdg init_state) || pdg.IsAntiNeutrino (ProbePdg init_state) = true ->
  CreateInteractionList_sized declared cfg init_state w =
    if bool_decide (declared < n_nunc_channels)%nat
    then Crash (OutOfBounds "nunc_channels" declared)
    else CreateInteractionList_sized n_nunc_channels cfg init_state w.
Proof.
  intros Hprobe. case_bool_decide as Hsmall.
  - unfold CreateInteractionList_sized.
    unfold bind at 1. cbn [LOG res_bind].
    unfold bind at 1. unfold lift at 1.
    assert (Hfill : fill_channels (ProbePdg init_state) (array_decl n_nucc_channels kSppNull)
                      (array_decl declared kSppNull) = Crash (OutOfBounds "nunc_channels" declared)).
    { unfold fill_channels.
      assert (Hcases : (declared = 0 \/ declared = 1 \/ declared = 2 \/ declared = 3)%nat)
        by (unfold n_nunc_channels in Hsmall; lia).
      destruct (pdg.IsNeutrino (ProbePdg init_state));
        [|destruct (pdg.IsAntiNeutrino (ProbePdg init_state)); [|discriminate]];
        destruct Hcases as [-> | [-> | [-> | ->]]]; reflexivity. }
    rewrite Hfill. reflexivity.
  - assert (Hroom : exists extra, declared = (n_nunc_channels + extra)%nat)
      by (exists (declared - n_nunc_channels)%nat; lia).
    destruct Hroom as [extra ->].
    unfold CreateInteractionList_sized.
    unfold bind, lift. cbn [LOG res_bind].
    rewrite fill_channels_roomy, fill_channels_declared, Hprobe. cbn [res_bind].
    destruct (spec_channel_table_length _ Hprobe) as [_ Hnc].
    destruct (fIsCC cfg); [reflexivity|]. destruct (fIsNC cfg); [|reflexivity].
    rewrite (for_loop_ext n_nunc_channels 0
               (add_channel "nunc_channels"
                  (spec_channel_table (ProbePdg init_state) kIntWeakNC ++ replicate extra kSppNull)
                  kIntWeakNC init_state (Target.Z_ (TgtPtr init_state) >? 0)
                  (Target.N_ (TgtPtr init_state) >? 0))
               (add_channel "nunc_channels"
                  (spec_channel_table (ProbePdg init_state) kIntWeakNC)
                  kIntWeakNC init_state (Target.Z_ (TgtPtr init_state) >? 0)
                  (Target.N_ (TgtPtr init_state) >? 0))); [reflexivity|].
    intros i acc s Hi. unfold add_channel. unfold bind at 1 3. unfold lift, array_get.
    rewrite lookup_app_l by lia. reflexivity.
Qed.
End GeneratorFacts.

(** ** The selector on any list *)

Section SelectorFrame.
Context `{Externals} `{RandomGen}.
Import Interaction EVG ToyInteractionSelector.

(** X18. [SelectInteraction] never modifies or frees an interaction that
    exists, under no assumption on the list or the random number service. When
    it returns it has logged exactly one line, an error for null and an info
    line otherwise; with null nothing is allocated or drawn; otherwise the one
    new cell is the summary and carries the supplied probe four-momentum. It
    fails only when the drawn index is outside the list or the drawn element is
    not live. *)
Theorem SelectInteraction_frame
    (igmap : option InteractionGeneratorMap) (p4 : TLorentzVector) (w : World) :
  match SelectInteraction igmap p4 w with
  | Ok (result, w') =>
      (forall l, (l < length (objs w))%nat -> objs w' !! l = objs w !! l) /\
      (exists entry, msgs w' = msgs w ++ [entry] /\
                     stream entry = "InteractionSelector"%string /\
                     priority entry = match result with Some _ => pINFO | None => pERROR end) /\
      match result with
      | Some evrec =>
          fInteraction evrec = Some (length (objs w)) /\
          (exists clone, objs w' = objs w ++ [Some clone] /\ fProbeP4 (fInitialState clone) = p4)
      | None => objs w' = objs w /\ rnd w' = rnd w
      end
  | Crash f =>
      exists m, igmap = Some m /\
        let iint := fst (Integer (rnd w) (length (GetInteractionList m))) in
        match GetInteractionList m !! iint with
        | Some elem => f = NullDereference /\ deref (objs w) elem = None
        | None => f = OutOfBounds "ilst" iint
        end
  end.
Proof.
  destruct igmap as [m|]; [|cbn; split; [reflexivity|]; split; [|split; reflexivity];
                            eexists; repeat split].
  unfold SelectInteraction, size, GetInteractionList.
  destruct (fInteractionList m) as [|l0 ilst] eqn:Hlist.
  { cbn. split; [reflexivity|]. split; [|split; reflexivity]. eexists; repeat split. }
  set (full := l0 :: ilst) in *.
  replace (length full <=? 0)%nat with false by reflexivity.
  unfold bind at 1. unfold draw.
  destruct (Integer (rnd w) (length full)) as [iint r] eqn:Hdraw. cbn [res_bind objs rnd msgs fst].
  unfold bind at 1. unfold lift, array_get.
  destruct (full !! iint) as [elem|] eqn:Helem; cbn [res_bind].
  2:{ exists m. split; [reflexivity|]. cbv zeta. unfold GetInteractionList.
      rewrite Hlist. fold full. rewrite Hdraw. cbn [fst]. unfold InteractionList. rewrite Helem. reflexivity. }
  unfold bind at 1. unfold load at 1. cbn [objs].
  destruct (deref (objs w) elem) as [original|] eqn:Horiginal; cbn [res_bind].
  2:{ exists m. split; [reflexivity|]. cbv zeta. unfold GetInteractionList.
      rewrite Hlist. fold full. rewrite Hdraw. cbn [fst]. unfold InteractionList. rewrite Helem. split; [reflexivity|].
      exact Horiginal. }
  unfold bind at 1. cbn [new alloc objs rnd msgs res_bind].
  unfold bind at 1. rewrite load_fresh. cbn [res_bind].
  unfold bind at 1. rewrite store_fresh. cbn [res_bind].
  cbn [bind LOG ret res_bind objs rnd msgs EventRecord_ AttachSummary].
  unfold bind. cbn [LOG ret res_bind objs rnd msgs fInteraction].
  split; [intros l Hl; apply lookup_app_l; exact Hl|].
  split; [eexists; repeat split|].
  split; [reflexivity|]. eexists. split; reflexivity.
Qed.

(** X19. Two selections in a row from the same non-empty list both
    succeed; the two summaries are distinct fresh cells, neither in the list,
    each with the probe four-momentum of its call; the store grows by exactly
    these two cells and the elements of the list are as they were. *)
Theorem SelectInteraction_twice
    (igmap : InteractionGeneratorMap) (p4 p4' : TLorentzVector) (w : World) :
  draws_in_range ->
  owned (objs w) (GetInteractionList igmap) ->
  GetInteractionList igmap <> [] ->
  exists first second w'' c1 c2,
    (let* a := SelectInteraction (Some igmap) p4 in
     let* b := SelectInteraction (Some igmap) p4' in
     ret (a, b)) w = Ok ((Some (mkEventRecord (Some first)), Some (mkEventRecord (Some second))), w'') /\
    first <> second /\
    (first ∉ GetInteractionList igmap) /\
    (second ∉ GetInteractionList igmap) /\
    deref (objs w'') first = Some c1 /\ fProbeP4 (fInitialState c1) = p4 /\
    deref (objs w'') second = Some c2 /\ fProbeP4 (fInitialState c2) = p4' /\
    length (objs w'') = (length (objs w) + 2)%nat /\
    (forall l, l ∈ GetInteractionList igmap -> deref (objs w'') l = deref (objs w) l).
Proof.
  intros Hrange Howned Hne.
  destruct (SelectInteraction_run igmap p4 w Hrange Howned Hne)
    as (iint & elem & original & _ & _ & _ & Hrun).
  set (w1 := mkWorld _ _ _) in Hrun.
  assert (Hfresh : forall l, l ∈ GetInteractionList igmap -> (l < length (objs w))%nat).
  { intros l Hl. destruct (Howned l Hl) as [v Hv]. eapply deref_Some_lt; eauto. }
  assert (Howned1 : owned (objs w1) (GetInteractionList igmap)).
  { intros l Hl. unfold w1. cbn [objs]. rewrite deref_alloc_old by (apply Hfresh, Hl).
    apply Howned, Hl. }
  destruct (SelectInteraction_run igmap p4' w1 Hrange Howned1 Hne)
    as (iint' & elem' & original' & _ & _ & _ & Hrun').
  exists (length (objs w)), (length (objs w1)). eexists. eexists. eexists.
  split.
  { unfold bind at 1. rewrite Hrun. cbn [res_bind]. unfold bind at 1. rewrite Hrun'.
    reflexivity. }
  assert (Hlen1 : length (objs w1) = S (length (objs w))).
  { unfold w1. cbn [objs]. rewrite length_app. cbn [length]. lia. }
  cbn [objs].
  split; [lia|].
  split; [intros Hl; apply Hfresh in Hl; lia|].
  split; [intros Hl; apply Hfresh in Hl; lia|].
  split.
  { apply deref_alloc_live with (v := with_fInitialState (SetProbeP4 p4 (fInitialState original)) original).
    unfold w1. cbn [objs]. apply deref_alloc_fresh. }
  split; [reflexivity|].
  split; [apply deref_alloc_fresh|].
  split; [reflexivity|].
  split; [rewrite length_app, Hlen1; cbn [length]; lia|].
  intros l Hl. rewrite deref_alloc_old by (rewrite Hlen1; apply Hfresh in Hl; lia).
  unfold w1. cbn [objs]. apply deref_alloc_old, Hfresh, Hl.
Qed.
End SelectorFrame.


(** ** Runs in the sample world *)

Import SppChannel Interaction EVG RSPPInteractionListGenerator ToyInteractionSelector Sample.
Local Open Scope Z_scope.
#[local] Existing Instance externals.
#[local] Existing Instance random.

Lemma Sample_random_draws_in_range : @draws_in_range random.
Proof.
  intros s imax Himax. cbn. apply Nat.mod_upper_bound. lia.
Qed.

Lemma Sample_two_interactions_owned : owned two_interactions (GetInteractionList igmap).
Proof.
  intros l Hl. cbn in Hl.
  apply elem_of_cons in Hl. destruct Hl as [-> | Hl]; [eexists; reflexivity|].
  apply elem_of_cons in Hl. destruct Hl as [-> | Hl]; [eexists; reflexivity|].
  apply elem_of_nil in Hl. contradiction.
Qed.

Lemma SetZA_invalid_resets_witness :
  exists e',
    Target.SetZA 5 3 blank = Ok (tt, e') /\
    Target.Z_ (Target.this e') = 0 /\ Target.A_ (Target.this e') = 0 /\
    Target.IsValidNucleus (Target.this e') = false /\
    Target.mem e' = Target.mem blank /\
    Target.log e' = Target.log blank ++
      [mkLog "Target" pWARN "Invalid target -- Reseting to Z = 0, A = 0"].
Proof.
  apply (@SetZA_invalid_resets externals blank 5 3); [reflexivity | lia | reflexivity].
Defined.

Lemma free_nucleon_struck_nucleon_witness :
  exists e',
    Target.Target_ZA 1 1 blank = Ok (tt, e') /\
    Target.IsFreeNucleon (Target.this e') = true /\
    Target.StruckNucleonPDGCode (Target.this e') = pdg.kPdgProton /\
    Target.fStruckNucP4 (Target.observe e') = Some (@mkP4 externals 0 0 0 938272).
Proof.
  destruct (@free_nucleon_struck_nucleon externals blank 1 1 pdg.kPdgProton (mkParticle 938272))
    as [(e' & Hrun & Hfree & _ & _ & _ & Hcode & Hp4) _];
    [reflexivity | left; split; reflexivity | reflexivity |].
  exists e'. repeat split; assumption.
Defined.

Lemma SetStruckNucleonPDGCode_twice_witness :
  pdg.IsNeutronOrProton pdg.kPdgNeutron = true /\
  Target.outcome ((Target.SetStruckNucleonPDGCode pdg.kPdgNeutron ;;
                   Target.SetStruckNucleonPDGCode pdg.kPdgNeutron) blank)
    = Target.outcome (Target.SetStruckNucleonPDGCode pdg.kPdgNeutron blank).
Proof.
  split; [reflexivity|].
  apply (@SetStruckNucleonPDGCode_twice externals blank pdg.kPdgNeutron). reflexivity.
Defined.

Lemma Copy_keeps_ions_only_witness :
  Target.invariant (Target.mem carbon_env) carbon = true /\
  exists e' p q,
    Target.Copy carbon carbon_env = Ok (tt, e') /\
    Target.fStruckNucP4 carbon = Some q /\ Target.fStruckNucP4 (Target.this e') = Some p /\
    p <> q /\ deref (Target.mem carbon_env) p = None /\
    Target.resolve (Target.mem e') carbon = Target.resolve (Target.mem carbon_env) carbon /\
    Target.observe e' =
      if IsIon (Target.fTgtPDG carbon) then Target.resolve (Target.mem carbon_env) carbon
      else Target.mkTarget 0 0 (Target.fTgtPDG carbon) 0 0 false
                           (Some (mkP4 d0 d0 d0 kNucleonMass)).
Proof.
  split; [reflexivity|].
  apply (@Copy_keeps_ions_only externals carbon_env carbon). reflexivity.
Defined.

(** C8, as stated, fails: a default-constructed target set to (Z, A) =
    (1, 1) has PDG code 0, which is no ion code; its copy has Z = A = 0, no
    struck nucleon and the default four-momentum. *)
Lemma Copy_drops_members_of_non_ion :
  exists src e',
    (Target.Target_ ;; Target.SetZA 1 1) blank = Ok (tt, src) /\
    Target.invariant (Target.mem src) (Target.this src) = true /\
    Target.Target_copy (Target.this src) (Target.mkEnv raw (Target.mem src) []) = Ok (tt, e') /\
    Target.Z_ (Target.this src) = 1 /\ Target.Z_ (Target.this e') = 0 /\
    Target.A_ (Target.this src) = 1 /\ Target.A_ (Target.this e') = 0 /\
    Target.StruckNucleonPDGCode (Target.this src) = pdg.kPdgProton /\
    Target.StruckNucleonPDGCode (Target.this e') = 0 /\
    Target.fStruckNucP4 (Target.observe src) = Some (mkP4 0 0 0 938272) /\
    Target.fStruckNucP4 (Target.observe e') = Some (mkP4 0 0 0 938919) /\
    Target.observe e' <> Target.observe src.
Proof.
  exists (@Target.mkEnv externals (Target.mkTarget 1 1 0 2212 0 false (Some 1%nat))
            [None; Some (@mkP4 externals 0 0 0 938272)] []),
         (@Target.mkEnv externals (Target.mkTarget 0 0 0 0 0 false (Some 2%nat))
            [None; Some (@mkP4 externals 0 0 0 938272);
             Some (@mkP4 externals 0 0 0 938919)] []).
  do 11 (split; [vm_compute; reflexivity|]).
  vm_compute. discriminate.
Qed.

Lemma SelectInteraction_null_iff_witness :
  exists result w',
    SelectInteraction (Some igmap) beam (world two_interactions 1) = Ok (result, w') /\
    (result = None <->
     Some igmap = None \/
     exists m, Some igmap = Some m /\ length (GetInteractionList m) = 0%nat) /\
    (result = None ->
     objs w' = objs (world two_interactions 1) /\ rnd w' = rnd (world two_interactions 1)).
Proof.
  apply (@SelectInteraction_null_iff_nothing_to_select externals random
           (Some igmap) beam (world two_interactions 1)).
  - exact Sample_random_draws_in_range.
  - intros m Hm. injection Hm as <-. exact Sample_two_interactions_owned.
Defined.

Lemma SelectInteraction_summary_is_a_clone_witness :
  exists evrec w' summary clone,
    SelectInteraction (Some igmap) beam (world two_interactions 1) = Ok (Some evrec, w') /\
    fInteraction evrec = Some summary /\
    deref (objs w') summary = Some clone /\
    (summary ∉ GetInteractionList igmap) /\
    fProbeP4 (fInitialState clone) = beam.
Proof.
  destruct (@SelectInteraction_summary_is_a_clone externals random
              igmap beam (world two_interactions 1))
    as (evrec & w' & iint & elem & original & summary & clone & Hrun & _ & _ & _ &
        Hsummary & Hclone & _ & Hnotin & _ & _ & _ & _ & _ & _ & Hp4).
  - exact Sample_random_draws_in_range.
  - exact Sample_two_interactions_owned.
  - discriminate.
  - exists evrec, w', summary, clone. repeat split; assumption.
Defined.


Lemma CreateInteractionList_writes_out_of_bounds_witness :
  pdg.IsNeutrino (ProbePdg numu_on_proton) || pdg.IsAntiNeutrino (ProbePdg numu_on_proton) = true /\
  CreateInteractionList cfgCC numu_on_proton (world [] 0) = Crash (OutOfBounds "nunc_channels" 3).
Proof.
  split; [reflexivity|].
  apply (@CreateInteractionList_writes_out_of_bounds externals random cfgCC numu_on_proton).
  reflexivity.
Defined.

(** C1. A muon neutrino on a deuteron, neutral current: the specification
    expects the four neutral-current channels; the run ends in the access to
    [nunc_channels[3]], and so does the loop over any three cells. *)
Theorem CreateInteractionList_NC_numu_on_deuteron :
  CreateInteractionList cfgNC numu_on_deuteron (world [] 0) = Crash (OutOfBounds "nunc_channels" 3)
  /\ spec_channels cfgNC numu_on_deuteron =
       [kSpp_vp_nc_10010; kSpp_vp_nc_01100; kSpp_vn_nc_01010; kSpp_vn_nc_10001]
  /\ for_loop n_nunc_channels 0
       (add_channel "nunc_channels" [kSpp_vp_nc_10010; kSpp_vp_nc_01100; kSpp_vn_nc_01010]
                    kIntWeakNC numu_on_deuteron true true)
       [] (world [] 0) = Crash (OutOfBounds "nunc_channels" 3).
Proof.
  split; [vm_compute; reflexivity|].
  split; [vm_compute; reflexivity|].
  vm_compute; reflexivity.
Qed.

(** C2. A muon anti-neutrino on a free neutron, neutral current: two
    channels are admitted, so that a non-null list is due; the run ends in the
    access to [nunc_channels[3]] and returns neither a list nor null. *)
Theorem CreateInteractionList_NC_numubar_on_neutron :
  CreateInteractionList cfgNC numubar_on_neutron (world [] 0) = Crash (OutOfBounds "nunc_channels" 3)
  /\ spec_channels cfgNC numubar_on_neutron = [kSpp_vbn_nc_01010; kSpp_vbn_nc_10001]
  /\ forall r w', CreateInteractionList cfgNC numubar_on_neutron (world [] 0) <> Ok (r, w').
Proof.
  assert (Hrun : CreateInteractionList cfgNC numubar_on_neutron (world [] 0) =
                 Crash (OutOfBounds "nunc_channels" 3)) by (vm_compute; reflexivity).
  split; [exact Hrun|].
  split; [vm_compute; reflexivity|].
  intros r w'. rewrite Hrun. discriminate.
Qed.

(** With four cells for [nunc_channels]: three candidates with distinct
    signatures on a target with protons and neutrons, one on a proton. *)
Example sized_CC_numu_on_deuteron :
  exists w',
    CreateInteractionList_sized n_nunc_channels cfgCC numu_on_deuteron (world [] 0) =
      Ok (Some [0; 1; 2]%nat, w') /\
    signatures w' = [ Some (pdg.kPdgProton, mkXclsTag 1 0 1 0 0);
                      Some (pdg.kPdgNeutron, mkXclsTag 1 0 0 1 0);
                      Some (pdg.kPdgNeutron, mkXclsTag 0 1 1 0 0) ].
Proof. eexists. split; vm_compute; reflexivity. Qed.

Example sized_CC_numu_on_proton :
  exists w',
    CreateInteractionList_sized n_nunc_channels cfgCC numu_on_proton (world [] 0) =
      Ok (Some [0]%nat, w') /\
    signatures w' = [ Some (pdg.kPdgProton, mkXclsTag 1 0 1 0 0) ].
Proof. eexists. split; vm_compute; reflexivity. Qed.

Example constructed_carbon :
  Target.Target_ZA 6 12 blank = Ok (tt, Target.mkEnv carbon (Target.mem carbon_env) []).
Proof. vm_compute. reflexivity. Qed.

(** ** Runs of the life-cycle, generator and selector properties in the
    sample world *)

Lemma mutators_keep_the_invariant_witness :
  Target.invariant (Target.mem oxygen_env) (Target.this oxygen_env) = true /\
  (forall p4, exists e',
     Target.SetStruckNucleonP4 p4 oxygen_env = Ok (tt, e') /\
     Target.invariant (Target.mem e') (Target.this e') = true).
Proof.
  split; [reflexivity|].
  destruct (@mutators_keep_the_invariant externals oxygen_env eq_refl) as (_ & _ & Hp4 & _).
  exact Hp4.
Defined.

Lemma SetZA_leaves_the_rest_witness :
  exists e',
    Target.SetZA 6 12 oxygen_env = Ok (tt, e') /\
    Target.IsFreeNucleon (Target.this e') = false /\
    Target.fStruckNucPDG (Target.this e') = Target.fStruckNucPDG (Target.this oxygen_env) /\
    Target.fStruckNucP4 (Target.this e') = Target.fStruckNucP4 (Target.this oxygen_env) /\
    Target.mem e' = Target.mem oxygen_env.
Proof.
  pose proof (@SetZA_leaves_the_rest externals oxygen_env 6 12) as Hrest.
  assert (Hrun : Target.SetZA 6 12 oxygen_env =
                 Ok (tt, @Target.mkEnv externals
                           (Target.mkTarget 6 12 (ion_code 16 8) 2212 (-2) true (Some 0%nat))
                           [Some (@mkP4 externals 0 0 0 938272)] []))
    by (vm_compute; reflexivity).
  rewrite Hrun in Hrest. destruct Hrest as (_ & _ & _ & Hfree).
  eexists. split; [exact Hrun|]. split; [reflexivity|]. apply Hfree. reflexivity.
Defined.

Lemma invalid_struck_nucleon_code_clears_witness :
  pdg.IsNeutronOrProton 22 = false /\
  exists e',
    Target.SetStruckNucleonPDGCode 22 oxygen_env = Ok (tt, e') /\
    Target.StruckNucleonIsSet (Target.this e') = false /\
    Target.mem e' = Target.mem oxygen_env.
Proof.
  split; [reflexivity|].
  destruct (@invalid_struck_nucleon_code_clears externals oxygen_env 22 eq_refl)
    as (e' & Hrun & _ & Hset & _ & Hmem & _).
  exists e'. repeat split; assumption.
Defined.

Lemma Copy_leaks_the_cell_of_Init_witness :
  Target.invariant (Target.mem carbon_env) carbon = true /\
  IsIon (Target.fTgtPDG carbon) = true /\
  exists e1 e2 p,
    Target.Copy carbon carbon_env = Ok (tt, e1) /\
    Target.Target_dtor e1 = Ok (tt, e2) /\
    Target.fStruckNucP4 (Target.this e1) = Some p /\
    deref (Target.mem e2) 1%nat = Some (mkP4 0 0 0 938919) /\
    deref (Target.mem e2) p = None.
Proof.
  split; [reflexivity|]. split; [reflexivity|].
  destruct (@Copy_leaks_the_cell_of_Init externals carbon_env carbon eq_refl eq_refl)
    as (e1 & e2 & p & Hcopy & Hdtor & Hp & _ & _ & Hleak & Hfreed).
  exists e1, e2, p. repeat split; assumption.
Defined.

Lemma parity_classes_partition_nuclei_witness :
  0 <= Target.fZ carbon <= Target.fA carbon /\
  Target.fA carbon < 2 ^ 31 /\
  Target.IsEvenEven carbon =
    Target.IsNucleus carbon && Z.even (Target.fZ carbon) && Z.even (Target.fA carbon).
Proof.
  assert (HZ : 0 <= Target.fZ carbon <= Target.fA carbon) by (cbn; lia).
  assert (HA : Target.fA carbon < 2 ^ 31) by (cbn; lia).
  split; [exact HZ|]. split; [exact HA|].
  destruct (@parity_classes_partition_nuclei _ carbon) as (_ & _ & _ & _ & Hparity).
  exact (proj1 (Hparity HZ HA)).
Defined.

Lemma struck_nucleon_mass_is_the_energy_at_rest_witness :
  pdg.IsNeutronOrProton pdg.kPdgNeutron = true /\
  Find pdg.kPdgNeutron = Some (mkParticle 939565) /\
  Target.owns_p4 (Target.mem oxygen_env) (Target.this oxygen_env) = true /\
  exists e',
    (Target.SetStruckNucleonPDGCode pdg.kPdgNeutron ;; Target.StruckNucleonMass) oxygen_env =
      Ok (939565, e').
Proof.
  split; [reflexivity|]. split; [reflexivity|]. split; [reflexivity|].
  destruct (@struck_nucleon_mass_is_the_energy_at_rest externals oxygen_env pdg.kPdgNeutron
              (mkParticle 939565) eq_refl eq_refl eq_refl)
    as (e' & p4 & Hrun & _ & HE & _).
  exists e'. rewrite Hrun, HE. reflexivity.
Defined.

Lemma accessors_on_a_valid_target_witness :
  Target.invariant (Target.mem oxygen_env) (Target.this oxygen_env) = true /\
  exists p v,
    Target.StruckNucleonP4 oxygen_env = Ok (Some p, oxygen_env) /\
    deref (Target.mem oxygen_env) p = Some v.
Proof.
  split; [reflexivity|].
  exact (proj1 (@accessors_on_a_valid_target externals oxygen_env eq_refl)).
Defined.

Lemma copy_of_a_copy_witness :
  Target.invariant (Target.mem carbon_env) carbon = true /\
  exists e1 e2,
    Target.Target_copy carbon carbon_env = Ok (tt, e1) /\
    Target.Target_copy (Target.this e1) (Target.mkEnv raw (Target.mem e1) (Target.log e1)) =
      Ok (tt, e2) /\
    Target.observe e2 = Target.observe e1.
Proof.
  split; [reflexivity|].
  destruct (@copy_of_a_copy externals carbon_env carbon raw eq_refl)
    as (e1 & e2 & p1 & p2 & Hfirst & Hsecond & Hobs & _).
  exists e1, e2. repeat split; assumption.
Defined.

Lemma CreateInteractionList_unsupported_probe_witness :
  pdg.IsNeutrino (ProbePdg (init_state 11 6 12)) ||
    pdg.IsAntiNeutrino (ProbePdg (init_state 11 6 12)) = false /\
  exists w',
    CreateInteractionList cfgCC (init_state 11 6 12) (world [] 0) = Ok (None, w') /\
    objs w' = [].
Proof.
  split; [reflexivity|]. eexists. split.
  - apply (@CreateInteractionList_unsupported_probe externals random cfgCC (init_state 11 6 12)
             (world [] 0)). reflexivity.
  - reflexivity.
Defined.

Lemma channel_loop_admits_in_order_witness :
  Find pdg.kPdgProton = Some (mkParticle 938272) /\
  Find pdg.kPdgNeutron = Some (mkParticle 939565) /\
  exists w',
    for_loop 3 0
      (add_channel "nucc_channels" [kSpp_vp_cc_10100; kSpp_vn_cc_10010; kSpp_vn_cc_01100]
                   kIntWeakCC numu_on_proton true false)
      [] (world [] 0) = Ok ([0%nat], w') /\
    deref (objs w') 0%nat = Some (spec_interaction cfgCC numu_on_proton kSpp_vp_cc_10100).
Proof.
  split; [reflexivity|]. split; [reflexivity|].
  destruct (@channel_loop_admits_in_order externals random "nucc_channels" cfgCC numu_on_proton
              (mkParticle 938272) (mkParticle 939565)
              [kSpp_vp_cc_10100; kSpp_vn_cc_10010; kSpp_vn_cc_01100] [] (world [] 0)
              eq_refl eq_refl)
    as (w' & Hrun & _ & Hkth & _).
  exists w'. split; [exact Hrun|]. exact (Hkth 0%nat kSpp_vp_cc_10100 eq_refl).
Defined.

Lemma declared_length_of_nunc_channels_witness :
  pdg.IsNeutrino (ProbePdg numu_on_proton) || pdg.IsAntiNeutrino (ProbePdg numu_on_proton) = true /\
  CreateInteractionList_sized 2 cfgNC numu_on_proton (world [] 0) =
    Crash (OutOfBounds "nunc_channels" 2).
Proof.
  split; [reflexivity|].
  rewrite (@declared_length_of_nunc_channels externals random 2 cfgNC numu_on_proton
             (world [] 0) eq_refl).
  reflexivity.
Defined.

Lemma SelectInteraction_frame_witness :
  exists result w',
    SelectInteraction (Some igmap) beam (world two_interactions 1) = Ok (result, w') /\
    objs w' !! 0%nat = two_interactions !! 0%nat /\
    objs w' !! 1%nat = two_interactions !! 1%nat.
Proof.
  pose proof (@SelectInteraction_frame externals random (Some igmap) beam
                (world two_interactions 1)) as Hframe.
  destruct (SelectInteraction (Some igmap) beam (world two_interactions 1))
    as [[result w']|f] eqn:Hrun; [|vm_compute in Hrun; discriminate].
  destruct Hframe as (Hold & _).
  exists result, w'. split; [reflexivity|].
  split; apply Hold; cbn; lia.
Defined.

Lemma SelectInteraction_twice_witness :
  exists first second w'',
    (let* a := SelectInteraction (Some igmap) beam in
     let* b := SelectInteraction (Some igmap) beam in
     ret (a, b)) (world two_interactions 1) =
      Ok ((Some (mkEventRecord (Some first)), Some (mkEventRecord (Some second))), w'') /\
    first <> second /\
    length (objs w'') = 4%nat.
Proof.
  destruct (@SelectInteraction_twice externals random igmap beam beam (world two_interactions 1))
    as (first & second & w'' & c1 & c2 & Hrun & Hne & _ & _ & _ & _ & _ & _ & Hlen & _).
  - exact Sample_random_draws_in_range.
  - exact Sample_two_interactions_owned.
  - discriminate.
  - exists first, second, w''. repeat split; assumption.
Defined.

(** The selector with a service that draws outside the list. *)
Example SelectInteraction_draw_out_of_range :
  @SelectInteraction externals stuck_random (Some igmap) beam
    (@mkWorld externals stuck_random two_interactions 0%nat []) =
    Crash (OutOfBounds "ilst" 2).
Proof. vm_compute. reflexivity. Qed.
